(** * DeerLab background models ([deerlab/bg_models.py])

    A shallow embedding of the parametric background models and of the
    argument resolver [_parsargs] they share, together with the properties
    of the models that the specification states.

    Modelling conventions.

    - IEEE doubles are idealised as the real numbers of the Standard
      Library; NumPy arrays are one-dimensional and hold such numbers.
      Inputs on which NumPy would produce [inf] or [nan] lie outside this
      idealisation and are excluded by hypotheses where they matter.
    - An array has a dtype, float or integer (a list of Python integers
      becomes an integer array).  The dtype is modelled where it changes
      what the code does within the bounds of the descriptors: a store
      into an integer array truncates, and a negative power of 10 with an
      integer exponent raises.  Integers are unbounded.
    - NumPy arrays are objects: an [ndarray] value is a reference to a
      buffer of the heap together with the way the buffer is viewed
      ([np.flip] returns a view, [np.copy] a new buffer, [np.atleast_1d]
      the array it was given).  A Python list handed to a model is turned
      into a new array by [np.atleast_1d]; it is represented here by an
      array that the caller holds.
    - Results of vectorised arithmetic are fresh arrays nobody else refers
      to; they are represented by their contents ([tval]).
    - [scipy.special.gamma], [scipy.integrate.quad], [np.interp] and the
      table returned by [deerlab.utils.load_exvolume_redfactor] are not part
      of the file; they are parameters of the development. *)

From Stdlib Require Import String Reals Lra Lia List.
From stdpp Require Import base list.

Open Scope string_scope.
Open Scope list_scope.
Open Scope R_scope.

(** ** Values, exceptions and the heap *)

(** Buffers are named by their index in the heap. *)
Abbreviation loc := nat (only parsing).

(** The dtype of an array. *)
Inductive np_dtype :=
| Float64
| Int64.

(** A NumPy array: the buffer it refers to, whether it is viewed in
    reverse order (the view [np.flip] returns), and its dtype. *)
Record ndarray := MkNd { buf : loc; flipped : bool; dtype : np_dtype }.

(** A float array and an integer array. *)
Definition NdArray (b : loc) (f : bool) : ndarray := MkNd b f Float64.
Definition IntArray (b : loc) (f : bool) : ndarray := MkNd b f Int64.

(** A positional argument: a number or (a reference to) an array. *)
Inductive pyval :=
| VFloat (x : R)
| VNd (a : ndarray).

(** A value of a vectorised expression: a scalar or the contents of a fresh
    array. *)
Inductive tval :=
| Sc (x : R)
| Ar (xs : list R).

(** The items of the argument tuple of an exception. *)
Inductive msg_part :=
| MStr (s : string)
| MInt (n : nat).

Inductive exn :=
| TypeError (msg : string)
| ValueError (args : list msg_part)
| IndexError (msg : string).

Inductive outcome (A : Type) :=
| Ok (a : A)
| Raise (e : exn).
Arguments Ok {A} a.
Arguments Raise {A} e.

(** The heap: the buffers allocated so far, in order of allocation. *)
Abbreviation heap := (list (list R)) (only parsing).

(** ** The monad of the embedding: a heap is threaded through every call,
    and a call either returns or raises. *)

Definition M (A : Type) : Type := heap -> outcome A * heap.

Definition ret {A} (a : A) : M A := fun h => (Ok a, h).

Definition raise {A} (e : exn) : M A := fun h => (Raise e, h).

Definition bind {A B} (c : M A) (k : A -> M B) : M B :=
  fun h =>
    match c h with
    | (Ok a, h') => k a h'
    | (Raise e, h') => (Raise e, h')
    end.

Definition lift {A} (o : outcome A) : M A := fun h => (o, h).

Notation "x <- c ;; k" := (bind c (fun x => k))
  (at level 20, c at level 99, k at level 200, only parsing).
Notation "' pat <- c ;; k" :=
  (bind c (fun x => match x with pat => k end))
  (at level 20, pat pattern, c at level 99, k at level 200, only parsing).

(** ** Heap primitives *)

(** The contents of an array as its view shows them.  A reference a caller
    holds always names an allocated buffer; any other reference shows the
    empty array. *)
Definition view (h : heap) (a : ndarray) : list R :=
  let xs := default [] (h !! buf a) in
  if flipped a then rev xs else xs.

Definition alloc (xs : list R) : M ndarray :=
  fun h => (Ok (NdArray (length h) false), h ++ [xs]).

(** A new array of the given dtype. *)
Definition alloc_as (dt : np_dtype) (xs : list R) : M ndarray :=
  fun h => (Ok (MkNd (length h) false dt), h ++ [xs]).

(** Conversion of a double to an integer: truncation towards zero. *)
Definition trunc (x : R) : R :=
  if Rle_dec 0 x then IZR (Int_part x) else - IZR (Int_part (- x)).

(** What an array of dtype [dt] keeps of a value stored into it. *)
Definition conv (dt : np_dtype) (x : R) : R :=
  match dt with
  | Float64 => x
  | Int64 => trunc x
  end.

Definition cast (dt : np_dtype) (xs : list R) : list R := map (conv dt) xs.

Definition read (a : ndarray) : M (list R) :=
  fun h => (Ok (view h a), h).

(** Overwrites what the view of [a] shows with [xs]. *)
Definition store (a : ndarray) (xs : list R) : M unit :=
  fun h => (Ok tt, <[buf a := if flipped a then rev xs else xs]> h).

(** [np.atleast_1d]: an array is returned as it is (the same object), a
    scalar becomes a new array of length 1. *)
Definition np_atleast_1d (v : pyval) : M ndarray :=
  match v with
  | VFloat x => alloc [x]
  | VNd a => ret a
  end.

(** [np.flip]: a reversed view of the same buffer, of the same dtype. *)
Definition np_flip (a : ndarray) : M ndarray :=
  ret (MkNd (buf a) (negb (flipped a)) (dtype a)).

(** [np.copy]: a new buffer with the contents the view shows, of the same
    dtype. *)
Definition np_copy (a : ndarray) : M ndarray :=
  xs <- read a ;; alloc_as (dtype a) xs.

Definition len (a : ndarray) : M nat :=
  xs <- read a ;; ret (length xs).

(** [a[i]] for a non-negative index. *)
Definition getitem (a : ndarray) (i : nat) : M R :=
  xs <- read a ;;
  match xs !! i with
  | Some x => ret x
  | None => raise (IndexError "index out of bounds")
  end.

(** [a[:-1]]: all entries but the last (nothing for an empty array). *)
Definition getitem_init (a : ndarray) : M (list R) :=
  xs <- read a ;; ret (take (length xs - 1) xs).

(** What an assignment into [n] entries stores for the value [v]. *)
Definition broadcast_to (n : nat) (v : tval) : outcome (list R) :=
  match v with
  | Sc x => Ok (replicate n x)
  | Ar ys =>
      if decide (length ys = n) then Ok ys
      else match ys with
           | [y] => Ok (replicate n y)
           | _ => Raise (ValueError
                    [MStr "could not broadcast input array from shape";
                     MInt (length ys); MStr "into shape"; MInt n])
           end
  end.

(** [a[:-1] = v]: writes through the view into the buffer of [a]; the
    values are converted to the dtype of [a]. *)
Definition setitem_init (a : ndarray) (v : tval) : M unit :=
  xs <- read a ;;
  let n := (length xs - 1)%nat in
  ys <- lift (broadcast_to n v) ;;
  store a (cast (dtype a) ys ++ drop n xs).

(** The value of an operand of an expression. *)
Definition arr (a : ndarray) : M tval :=
  xs <- read a ;; ret (Ar xs).

Definition val (v : pyval) : M tval :=
  match v with
  | VFloat x => ret (Sc x)
  | VNd a => arr a
  end.

(** ** Vectorised arithmetic with broadcasting *)

Definition broadcast_error (m n : nat) : exn :=
  ValueError [MStr "operands could not be broadcast together with shapes";
              MInt m; MInt n].

Definition bin (f : R -> R -> R) (u v : outcome tval) : outcome tval :=
  match u, v with
  | Raise e, _ => Raise e
  | _, Raise e => Raise e
  | Ok (Sc x), Ok (Sc y) => Ok (Sc (f x y))
  | Ok (Sc x), Ok (Ar ys) => Ok (Ar (map (f x) ys))
  | Ok (Ar xs), Ok (Sc y) => Ok (Ar (map (fun x => f x y) xs))
  | Ok (Ar xs), Ok (Ar ys) =>
      if decide (length xs = length ys) then Ok (Ar (zip_with f xs ys))
      else match xs, ys with
           | [x], _ => Ok (Ar (map (f x) ys))
           | _, [y] => Ok (Ar (map (fun x => f x y) xs))
           | _, _ => Raise (broadcast_error (length xs) (length ys))
           end
  end.

Definition un (f : R -> R) (u : outcome tval) : outcome tval :=
  match u with
  | Raise e => Raise e
  | Ok (Sc x) => Ok (Sc (f x))
  | Ok (Ar xs) => Ok (Ar (map f xs))
  end.

(** [x ** y] on doubles with a base that is not negative (every base in
    this file is an absolute value or a positive constant): anything to the
    power 0 is 1, and 0 to a positive power is 0.  (A zero base with a
    negative exponent gives [inf] in NumPy and is outside the reals.  An
    integer raised to a negative integer power raises in NumPy: that is
    modelled for [10**-d], see [pow10]; the stretch factors that would
    need it are below the bounds of every descriptor.) *)
Definition np_power (x y : R) : R :=
  if Req_dec_T y 0 then 1
  else if Req_dec_T x 0 then 0
  else Rpower x y.

Declare Scope np_scope.
Delimit Scope np_scope with np.
Notation "# x" := (Ok (Sc x)) (at level 9, x at level 9, format "# x") : np_scope.
Notation "x * y" := (bin Rmult x y) : np_scope.
Notation "x / y" := (bin Rdiv x y) : np_scope.
Notation "x + y" := (bin Rplus x y) : np_scope.
Notation "x - y" := (bin Rminus x y) : np_scope.
Notation "x ** y" := (bin np_power x y) (at level 30, right associativity) : np_scope.
Notation "- x" := (un Ropp x) : np_scope.
Definition np_exp := un exp.
Definition np_abs := un Rabs.

(** ** The argument resolver *)

Definition _parsargs (args : list pyval) (npar : nat)
  : M (ndarray * ndarray * pyval) :=
  '(t, p, lam) <-
    match args with
    | [t; p] => ret (t, p, VFloat 1)
    | [t; p; lam] => ret (t, p, lam)
    | _ => raise (TypeError
        "Two or three input arguments required: bg_model(t,p) or bg_model(r,p,lam)")
    end ;;
  t <- np_atleast_1d t ;;
  p <- np_atleast_1d p ;;
  n <- len p ;;
  if decide (n <> npar) then
    raise (ValueError [MStr "This model requires "; MInt npar;
                       MStr " parameters. Only "; MInt n;
                       MStr " where specified."])
  else ret (t, p, lam).

(** ** What a model returns: its descriptor or a decay curve *)

Record info := Info {
  Parameters : list string;
  Units : list string;
  Start : list R;
  Lower : list R;
  Upper : list R
}.

Inductive retval :=
| RInfo (i : info)
| RCurve (B : tval).

(** ** Physical constants (CODATA 2018) *)

Module CODATA.
Definition NA : R := 6.02214076e23.      (* Avogadro constant, mol^-1 *)
Definition muB : R := 9.2740100783e-24.  (* Bohr magneton, J/T *)
Definition mu0 : R := 1.25663706212e-6.  (* magnetic constant *)
Definition h : R := 6.62607015e-34.      (* Planck constant, J/Hz *)
Definition ge : R := 2.00231930436256.   (* free-electron g factor *)
Definition eps : R := / 2 ^ 52.          (* np.finfo(float).eps *)
End CODATA.
Import CODATA.

(** ** Library functions on numbers *)

(** The built-in [max] of a sequence. *)
Definition py_max (xs : list R) : outcome R :=
  match xs with
  | [] => Raise (ValueError [MStr "max() arg is an empty sequence"])
  | x :: xs' => Ok (fold_left Rmax xs' x)
  end.

(** [np.polyval(p, x)]: Horner's scheme, [y = zeros_like(x)] and then
    [y = y * x + pv] for every coefficient [pv] of [p]. *)
Definition np_polyval (p : list R) (x : outcome tval) : outcome tval :=
  fold_left (fun y pv => (y * x + #pv)%np) p (un (fun _ => 0) x).

(** ** The models *)

Definition bg_exp (args : list pyval) : M retval :=
  match args with
  | [] => ret (RInfo {|
      Parameters := ["Decay Rate"];
      Units := ["us-1"];
      Start := [0.35];
      Lower := [0];
      Upper := [200] |})
  | _ =>
    '(t, param, lam) <- _parsargs args 1 ;;
    t <- np_atleast_1d (VNd t) ;;
    param <- np_atleast_1d (VNd param) ;;
    kappa <- getitem param 0 ;;
    lam <- val lam ;;
    t <- arr t ;;
    B <- lift (np_exp (- Ok lam * #kappa * np_abs (Ok t)))%np ;;
    ret (RCurve B)
  end.

Definition bg_hom3d (args : list pyval) : M retval :=
  match args with
  | [] => ret (RInfo {|
      Parameters := ["Concentration of pumped spins"];
      Units := ["uM"];
      Start := [50];
      Lower := [0.01];
      Upper := [5000] |})
  | _ =>
    '(t, param, lam) <- _parsargs args 1 ;;
    conc <- arr param ;;
    let hbar := h / 2 / PI in
    let D := (mu0 / 4 / PI) * (muB * ge) ^ 2 / hbar in
    let conc := (Ok conc * #1e-6 * #1e3 * #NA)%np in
    lam <- val lam ;;
    t <- arr t ;;
    B <- lift (np_exp (#(-8 * PI ^ 2 / 9 / sqrt 3) * Ok lam * conc * #D
                       * np_abs (Ok t * #1e-6)))%np ;;
    ret (RCurve B)
  end.

Definition bg_strexp (args : list pyval) : M retval :=
  match args with
  | [] => ret (RInfo {|
      Parameters := ["Decay Rate"; "Stretch factor"];
      Units := ["us-1"; ""];
      Start := [0.25; 1];
      Lower := [0; 0];
      Upper := [200; 6] |})
  | _ =>
    '(t, param, lam) <- _parsargs args 2 ;;
    kappa <- getitem param 0 ;;
    d <- getitem param 1 ;;
    lam <- val lam ;;
    t <- arr t ;;
    B <- lift (np_exp (- Ok lam * #kappa * np_abs (Ok t) ** #d))%np ;;
    ret (RCurve B)
  end.

Definition bg_prodstrexp (args : list pyval) : M retval :=
  match args with
  | [] => ret (RInfo {|
      Parameters := ["Decay Rate of 1st component";
                     "Stretch factor of 1st component";
                     "Decay Rate of 2nd component";
                     "Stretch factor of 2nd component"];
      Units := ["us-1"; ""; "us-1"; ""];
      Start := [0.25; 1; 0.25; 1];
      Lower := [0; 0; 0; 0];
      Upper := [200; 6; 200; 6] |})
  | _ =>
    '(t, param, lam) <- _parsargs args 4 ;;
    kappa1 <- getitem param 0 ;;
    d1 <- getitem param 1 ;;
    kappa2 <- getitem param 2 ;;
    d2 <- getitem param 3 ;;
    lam <- val lam ;;
    t <- arr t ;;
    let strexp1 := (np_exp (- Ok lam * #kappa1 * np_abs (Ok t) ** #d1))%np in
    let strexp2 := (np_exp (- Ok lam * #kappa2 * np_abs (Ok t) ** #d2))%np in
    B <- lift (strexp1 * strexp2)%np ;;
    ret (RCurve B)
  end.

Definition bg_sumstrexp (args : list pyval) : M retval :=
  match args with
  | [] => ret (RInfo {|
      Parameters := ["Decay Rate of 1st component";
                     "Stretch factor of 1st component";
                     "Amplitude of 1st component";
                     "Decay Rate of 2nd component";
                     "Stretch factor of 2nd component"];
      Units := ["us-1"; ""; ""; "us-1"; ""];
      Start := [0.25; 1; 0.5; 0.25; 1];
      Lower := [0; 0; 0; 0; 0];
      Upper := [200; 6; 1; 200; 6] |})
  | _ =>
    '(t, param, lam) <- _parsargs args 5 ;;
    kappa1 <- getitem param 0 ;;
    d1 <- getitem param 1 ;;
    w1 <- getitem param 2 ;;
    kappa2 <- getitem param 3 ;;
    d2 <- getitem param 4 ;;
    lam <- val lam ;;
    t <- arr t ;;
    let strexp1 := (np_exp (- Ok lam * #kappa1 * np_abs (Ok t) ** #d1))%np in
    let strexp2 := (np_exp (- Ok lam * #kappa2 * np_abs (Ok t) ** #d2))%np in
    B <- lift (#w1 * strexp1 + #(1 - w1) * strexp2)%np ;;
    ret (RCurve B)
  end.

(** The body the three polynomial models share word for word
    ([bg_poly1] also prints [param] before and after; output is not
    modelled). *)
Definition poly_body (t param : ndarray) (lam : pyval) : M retval :=
  fl <- np_flip param ;;
  p <- np_copy fl ;;
  lam <- val lam ;;
  init <- getitem_init p ;;
  v <- lift (Ok lam * Ok (Ar init))%np ;;
  _ <- setitem_init p v ;;
  p <- read p ;;
  t <- arr t ;;
  B <- lift (np_polyval p (np_abs (Ok t))) ;;
  ret (RCurve B).

Definition bg_poly1 (args : list pyval) : M retval :=
  match args with
  | [] => ret (RInfo {|
      Parameters := ["Intercept"; "1st-order coefficient"];
      Units := [""; "us-1"];
      Start := [1; -1];
      Lower := [0; -200];
      Upper := [200; 200] |})
  | _ =>
    '(t, param, lam) <- _parsargs args 2 ;;
    poly_body t param lam
  end.

Definition bg_poly2 (args : list pyval) : M retval :=
  match args with
  | [] => ret (RInfo {|
      Parameters := ["Intercept"; "1st-order coefficient";
                     "2nd-order coefficient"];
      Units := [""; "us-1"; "us-2"];
      Start := [1; -1; -1];
      Lower := [0; -200; -200];
      Upper := [200; 200; 200] |})
  | _ =>
    '(t, param, lam) <- _parsargs args 3 ;;
    poly_body t param lam
  end.

Definition bg_poly3 (args : list pyval) : M retval :=
  match args with
  | [] => ret (RInfo {|
      Parameters := ["Intercept"; "1st-order coefficient";
                     "2nd-order coefficient"; "3rd-order coefficient"];
      Units := [""; "us-1"; "us-2"; "us-3"];
      Start := [1; -1; -1; -1];
      Lower := [0; -200; -200; -200];
      Upper := [200; 200; 200; 200] |})
  | _ =>
    '(t, param, lam) <- _parsargs args 4 ;;
    poly_body t param lam
  end.

(** ** Sample arguments for concrete calls *)

(** A caller's heap with a time axis in buffer 0 and a parameter vector in
    buffer 1, and the two arrays that refer to them. *)
Definition axis : pyval := VNd (NdArray 0 false).
Definition params : pyval := VNd (NdArray 1 false).

(** Stand-ins for the library functions and the table, for the calls
    below. *)
Definition sample_gamma : R -> R := fun _ => 1.
Definition sample_quad : (R -> R) -> R -> R -> nat -> R * R :=
  fun f a b _ => (f a, 0).
Definition sample_interp : R -> list R -> list R -> R := fun _ _ fp => hd 1 fp.
Definition sample_table : list R * list R := ([1; 2], [1; 1]).

(** ** The models that call library functions outside the file *)

Section External.

(** [scipy.special.gamma]. *)
Variable gamma : R -> R.
(** [scipy.integrate.quad f a b limit]: the integral and an estimate of its
    absolute error, as a pair. *)
Variable quad : (R -> R) -> R -> R -> nat -> R * R.
(** [np.interp x xp fp] at one point [x]. *)
Variable np_interp : R -> list R -> list R -> R.
(** The table of [deerlab.utils]: domain values and reduction factors. *)
Variable load_exvolume_redfactor : list R * list R.

(** The reduction factor of [bg_hom3dex] (the block under the comment
    "Calculate reduction factor").  The two masked assignments to [alpha]
    are written as one choice per sample. *)
Definition hom3dex_alpha (A R_ : R) (t : tval) (dR_tab alphas_tab : list R)
  : outcome tval :=
  if Req_dec_T R_ 0 then (#1)%np
  else
    let dR := (#A * np_abs (Ok t * #1e-6) / #((R_ * 1e-9) ^ 3))%np in
    match py_max dR_tab with
    | Raise e => Raise e
    | Ok mx =>
        un (fun x => if Rlt_dec x mx
                     then np_interp x dR_tab alphas_tab
                     else 1 - (3 / 2 / PI) * sqrt 3 / x) dR
    end.

Definition bg_hom3dex (args : list pyval) : M retval :=
  match args with
  | [] => ret (RInfo {|
      Parameters := ["Fractal Concentration of pumped spins";
                     "Fractal dimensionality"];
      Units := ["umol/dm^d"; ""];
      Start := [50; 1];
      Lower := [0.01; 0.01];
      Upper := [5000; 20] |})
  | _ =>
    '(t, param, lam) <- _parsargs args 2 ;;
    let '(dR_tab, alphas_tab) := load_exvolume_redfactor in
    conc <- getitem param 0 ;;
    R_ <- getitem param 1 ;;
    let conc := conc * 1e-6 * 1e3 * NA in
    let hbar := h / 2 / PI in
    let A := (mu0 / 4 / PI) * (ge * muB) ^ 2 / hbar in
    t <- arr t ;;
    alpha <- lift (hom3dex_alpha A R_ t dR_tab alphas_tab) ;;
    let K := (#(8 * PI ^ 2 / 9 / sqrt 3) * #A * np_abs (Ok t * #1e-6)
              * Ok alpha)%np in
    lam <- val lam ;;
    B <- lift (np_exp (- Ok lam * #conc * K))%np ;;
    ret (RCurve B)
  end.

(** [10**e] for an exponent taken from an array of dtype [dt]: NumPy
    refuses a negative integer exponent of an integer base. *)
Definition pow10 (dt : np_dtype) (e : R) : outcome R :=
  match dt with
  | Float64 => Ok (np_power 10 e)
  | Int64 =>
      if Rlt_dec e 0
      then Raise (ValueError
             [MStr "Integers to negative integer powers are not allowed."])
      else Ok (np_power 10 e)
  end.

(** What [bg_homfractal] binds [Lam] to: a number in the branch [d == 3],
    otherwise what [quad] returns, which is a tuple. *)
Inductive Lam_value :=
| LamNumber (x : R)
| LamTuple (q : R * R).

(** [x * Lam] for a NumPy scalar [x].  With a tuple on the right NumPy
    leaves the product to the tuple, that is to the repetition of a
    sequence, which raises for a factor that is not an integer. *)
Definition times_Lam (x : R) (Lam : Lam_value) : outcome tval :=
  match Lam with
  | LamNumber y => Ok (Sc (x * y))
  | LamTuple _ =>
      Raise (TypeError
        "can't multiply sequence by non-int of type 'numpy.float64'")
  end.

Definition bg_homfractal (args : list pyval) : M retval :=
  match args with
  | [] => ret (RInfo {|
      Parameters := ["Fractal Concentration of pumped spins";
                     "Fractal dimensionality"];
      Units := ["umol/dm^d"; ""];
      Start := [50; 3];
      Lower := [0.01; 0 + eps];
      Upper := [5000; 6 - eps] |})
  | _ =>
    '(t, param, lam) <- _parsargs args 2 ;;
    conc <- getitem param 0 ;;
    d <- getitem param 1 ;;
    let hbar := h / 2 / PI in
    let D := (mu0 / 4 / PI) * (muB * ge) ^ 2 / hbar in
    ten_d <- lift (pow10 (dtype param) (- d)) ;;
    let conc := conc * 1e-6 * ten_d * NA in
    let '(c, Lam) :=
      if Req_dec_T d 3 then (- PI / 2, LamNumber (4 / 3 / sqrt 3))
      else
        let c := cos (d * PI / 6) * gamma (- d / 3) in
        let integrand := fun z => np_power (Rabs (1 - 3 * z ^ 2)) (d / 3) in
        let Lam := quad integrand 0 1 1000 in
        (c, LamTuple Lam) in
    lam <- val lam ;;
    t <- arr t ;;
    B <- lift (np_exp (times_Lam (4 * PI / 3 * c) Lam * Ok lam * #conc
                       * #(np_power D (d / 3))
                       * np_abs (Ok t * #1e-6) ** #(d / 3)))%np ;;
    ret (RCurve B)
  end.

(** ** The family of models *)

Inductive model :=
| Exp | Hom3d | Hom3dex | Homfractal | Strexp | Prodstrexp | Sumstrexp
| Poly1 | Poly2 | Poly3.

Definition call (m : model) : list pyval -> M retval :=
  match m with
  | Exp => bg_exp
  | Hom3d => bg_hom3d
  | Hom3dex => bg_hom3dex
  | Homfractal => bg_homfractal
  | Strexp => bg_strexp
  | Prodstrexp => bg_prodstrexp
  | Sumstrexp => bg_sumstrexp
  | Poly1 => bg_poly1
  | Poly2 => bg_poly2
  | Poly3 => bg_poly3
  end.

(** The parameter count each model hands to [_parsargs]. *)
Definition npar (m : model) : nat :=
  match m with
  | Exp | Hom3d => 1
  | Hom3dex | Homfractal | Strexp | Poly1 => 2
  | Poly2 => 3
  | Prodstrexp | Poly3 => 4
  | Sumstrexp => 5
  end.


(** ** What a caller passes *)

(** The numbers an [array_like] argument denotes in a heap. *)
Definition contents (hp : heap) (v : pyval) : list R :=
  match v with
  | VFloat x => [x]
  | VNd a => view hp a
  end.

(** An array argument refers to a buffer of the caller's heap. *)
Definition valid (hp : heap) (v : pyval) : Prop :=
  match v with
  | VFloat _ => True
  | VNd a => (buf a < length hp)%nat
  end.

(** The dtype of the array [np.atleast_1d] makes of an argument. *)
Definition dtype_of (v : pyval) : np_dtype :=
  match v with
  | VFloat _ => Float64
  | VNd a => dtype a
  end.

(** A float argument: a number or a float array. *)
Definition is_float (v : pyval) : Prop := dtype_of v = Float64.

(** ** Notions the properties are stated with *)

(** The error [_parsargs] raises for a parameter vector of [n] entries
    where [k] are required. *)
Definition count_mismatch (k n : nat) : exn :=
  ValueError [MStr "This model requires "; MInt k;
              MStr " parameters. Only "; MInt n;
              MStr " where specified."].

(** The coefficients [np.polyval] receives: the reversed parameters, all
    but the last one multiplied by [lam] and converted to the dtype of the
    parameter vector. *)
Definition scaled (dt : np_dtype) (lam : R) (cs : list R) : list R :=
  cast dt (map (Rmult lam) (take (length cs - 1) (rev cs)))
  ++ drop (length cs - 1) (rev cs).

(** The dipolar constant as [bg_hom3dex] computes it. *)
Definition A_hom3dex : R := (mu0 / 4 / PI) * (ge * muB) ^ 2 / (h / 2 / PI).

(** The dipolar constant as [bg_hom3d] and [bg_homfractal] compute it. *)
Definition D_dipolar : R := (mu0 / 4 / PI) * (muB * ge) ^ 2 / (h / 2 / PI).

(** A computation that leaves every buffer of the heap it starts from as it
    is; the buffers it allocates come after them. *)
Definition grows {A} (c : M A) : Prop :=
  forall hp : heap, exists ext : heap, (c hp).2 = hp ++ ext.

(** The descriptor of a model: what the call without arguments returns. *)
Definition descriptor (m : model) : info :=
  match (call m [] []).1 with
  | Ok (RInfo i) => i
  | _ => Info [] [] [] [] []
  end.

(** Every parameter lies between the lower and the upper bound the
    descriptor gives for it. *)
Definition in_bounds (m : model) (ps : list R) : Prop :=
  Forall2 Rle (Lower (descriptor m)) ps /\
  Forall2 Rle ps (Upper (descriptor m)).

(** What a model needs, beyond the bounds, for its value at [t = 0] to be
    the one [zero_time_value] names: a stretch factor other than 0 (the
    bounds allow 0, and [0 ** 0] is 1), the closed-form branch [d = 3] of
    the fractal model, and for the excluded-volume model a table whose
    largest domain value is positive. *)
Definition regular_at_zero (m : model) (ps : list R) : Prop :=
  match m with
  | Strexp => nth 1 ps 0 <> 0
  | Prodstrexp => nth 1 ps 0 <> 0 /\ nth 3 ps 0 <> 0
  | Sumstrexp => nth 1 ps 0 <> 0 /\ nth 4 ps 0 <> 0
  | Homfractal => nth 1 ps 0 = 3
  | Hom3dex =>
      exists mx, py_max load_exvolume_redfactor.1 = Ok mx /\ 0 < mx
  | _ => True
  end.

(** The value of a model at a sample [t = 0]: the intercept for the
    polynomial models, 1 for the others. *)
Definition zero_time_value (m : model) (ps : list R) : R :=
  match m with
  | Poly1 | Poly2 | Poly3 => nth 0 ps 0
  | _ => 1
  end.

(** The models whose call returns a curve of finite values for a scalar
    [lam] once the parameter count is right: all of them, except that the
    excluded-volume model with a non-zero second parameter needs a table
    whose largest domain value is positive, and that the fractal model is
    taken at [d = 3]. *)
Definition evaluates (m : model) (ps : list R) : Prop :=
  match m with
  | Hom3dex =>
      nth 1 ps 0 = 0 \/
      exists mx, py_max load_exvolume_redfactor.1 = Ok mx /\ 0 < mx
  | Homfractal => nth 1 ps 0 = 3
  | _ => True
  end.

(** ** Basic facts about the heap and the monad *)

Lemma view_app (hp ext : heap) (a : ndarray) :
  (buf a < length hp)%nat -> view (hp ++ ext) a = view hp a.
Proof.
  intros Hlt. unfold view. by rewrite lookup_app_l.
Qed.

Lemma view_alloc (hp : heap) (xs : list R) :
  view (hp ++ [xs]) (NdArray (length hp) false) = xs.
Proof.
  unfold view. simpl. by rewrite list_lookup_middle.
Qed.

Lemma bind_ok {A B} (c : M A) (k : A -> M B) (hp hp' : heap) (a : A) :
  c hp = (Ok a, hp') -> bind c k hp = k a hp'.
Proof. intros E. unfold bind. by rewrite E. Qed.

Lemma bind_raise {A B} (c : M A) (k : A -> M B) (hp hp' : heap) (e : exn) :
  c hp = (Raise e, hp') -> bind c k hp = (Raise e, hp').
Proof. intros E. unfold bind. by rewrite E. Qed.

Lemma getitem_ok (hp : heap) (a : ndarray) (i : nat) (x : R) :
  view hp a !! i = Some x -> getitem a i hp = (Ok x, hp).
Proof.
  intros E. unfold getitem, bind, read. by rewrite E.
Qed.

(** What [_parsargs] does on three arguments: both array arguments are
    coerced (which may allocate), then the length is checked. *)
Lemma parsargs_spec (hp : heap) (t p lam : pyval) (k : nat) :
  valid hp t -> valid hp p ->
  exists t' p' ext,
    _parsargs [t; p; lam] k hp =
      ((if decide (length (contents hp p) <> k)
        then Raise (count_mismatch k (length (contents hp p)))
        else Ok (t', p', lam)), hp ++ ext) /\
    view (hp ++ ext) t' = contents hp t /\
    view (hp ++ ext) p' = contents hp p /\
    (buf t' < length (hp ++ ext))%nat /\
    (buf p' < length (hp ++ ext))%nat /\
    dtype p' = dtype_of p.
Proof.
  intros Ht Hp. destruct t as [x|ta], p as [y|pa]; simpl in Ht, Hp.
  - exists (NdArray (length hp) false), (NdArray (length (hp ++ [[x]])) false),
      [[x]; [y]].
    replace (hp ++ [[x]; [y]]) with ((hp ++ [[x]]) ++ [[y]])
      by (by rewrite <- app_assoc).
    split; [|split; [|split; [|split; [|split]]]].
    + unfold _parsargs, bind, ret, np_atleast_1d, alloc, len, read, raise.
      simpl. rewrite view_alloc. by destruct (decide _).
    + rewrite view_app by (rewrite length_app; simpl; lia).
      apply view_alloc.
    + apply view_alloc.
    + rewrite !length_app. simpl. lia.
    + rewrite !length_app. simpl. lia.
    + reflexivity.
  - exists (NdArray (length hp) false), pa, [[x]].
    split; [|split; [|split; [|split; [|split]]]].
    + unfold _parsargs, bind, ret, np_atleast_1d, alloc, len, read, raise.
      simpl. rewrite view_app by done. by destruct (decide _).
    + apply view_alloc.
    + by apply view_app.
    + rewrite !length_app. simpl. lia.
    + rewrite !length_app. simpl. lia.
    + reflexivity.
  - exists ta, (NdArray (length hp) false), [[y]].
    split; [|split; [|split; [|split; [|split]]]].
    + unfold _parsargs, bind, ret, np_atleast_1d, alloc, len, read, raise.
      simpl. rewrite view_alloc. by destruct (decide _).
    + by apply view_app.
    + apply view_alloc.
    + rewrite !length_app. simpl. lia.
    + rewrite !length_app. simpl. lia.
    + reflexivity.
  - exists ta, pa, []. rewrite app_nil_r.
    split; [|split; [|split; [|split; [|split]]]]; try done.
    unfold _parsargs, bind, ret, np_atleast_1d, len, read, raise.
    simpl. by destruct (decide _).
Qed.

Lemma parsargs_default (t p : pyval) (k : nat) :
  _parsargs [t; p] k = _parsargs [t; p; VFloat 1] k.
Proof. reflexivity. Qed.

(** ** Vectorised arithmetic, case by case *)

Arguments view : simpl never.
Arguments bin : simpl never.
Arguments un : simpl never.

Lemma bin_sc_sc (f : R -> R -> R) (x y : R) :
  bin f (Ok (Sc x)) (Ok (Sc y)) = Ok (Sc (f x y)).
Proof. reflexivity. Qed.

Lemma bin_sc_ar (f : R -> R -> R) (x : R) (ys : list R) :
  bin f (Ok (Sc x)) (Ok (Ar ys)) = Ok (Ar (map (f x) ys)).
Proof. reflexivity. Qed.

Lemma bin_ar_sc (f : R -> R -> R) (xs : list R) (y : R) :
  bin f (Ok (Ar xs)) (Ok (Sc y)) = Ok (Ar (map (fun x => f x y) xs)).
Proof. reflexivity. Qed.

Lemma zip_with_map_same {A} (f : R -> R -> R) (g k : A -> R) (l : list A) :
  zip_with f (map g l) (map k l) = map (fun x => f (g x) (k x)) l.
Proof. induction l as [|a l IH]; simpl; by rewrite ?IH. Qed.

(** Two arrays computed sample by sample from the same axis combine
    sample by sample. *)
Lemma bin_same {A} (f : R -> R -> R) (g k : A -> R) (l : list A) :
  bin f (Ok (Ar (map g l))) (Ok (Ar (map k l))) =
  Ok (Ar (map (fun x => f (g x) (k x)) l)).
Proof.
  unfold bin. rewrite decide_True by (by rewrite !length_map).
  by rewrite zip_with_map_same.
Qed.

(** An array of length 1 is broadcast along the other operand. *)
Lemma bin_singleton_l (f : R -> R -> R) (x : R) (ys : list R) :
  bin f (Ok (Ar [x])) (Ok (Ar ys)) = Ok (Ar (map (f x) ys)).
Proof.
  unfold bin. destruct (decide _) as [E|E]; [|done].
  destruct ys as [|y [|y' ys]]; simpl in E; try discriminate. done.
Qed.

Lemma un_sc (f : R -> R) (x : R) : un f (Ok (Sc x)) = Ok (Sc (f x)).
Proof. reflexivity. Qed.

Lemma un_ar (f : R -> R) (xs : list R) :
  un f (Ok (Ar xs)) = Ok (Ar (map f xs)).
Proof. reflexivity. Qed.

Create Rewrite HintDb np.
#[local] Hint Rewrite bin_sc_sc bin_sc_ar bin_ar_sc un_sc un_ar : np.
#[local] Hint Rewrite @bin_same bin_singleton_l : np.
#[local] Hint Rewrite map_map : np.

(** Unfolds the monadic steps of a model body that read the heap. *)
Ltac run_body :=
  unfold poly_body, np_atleast_1d, np_copy, np_flip, getitem_init,
    setitem_init, getitem, len, arr, val, bind, ret, read, lift, raise,
    np_exp, np_abs;
  simpl.

(** Normalises the vectorised expression of a model. *)
Ltac np_simp := repeat (progress (autorewrite with np; simpl)).

(** Runs the part of a model that follows [_parsargs] once the resolver's
    outcome is known. *)
Ltac after_parsargs t p lam k Ht Hp Hlen :=
  let t' := fresh "t'" in
  let p' := fresh "p'" in
  let ext := fresh "ext" in
  let E := fresh "E" in
  let Vt := fresh "Vt" in
  let Vp := fresh "Vp" in
  let Lt := fresh "Lt" in
  let Lp := fresh "Lp" in
  let Dp := fresh "Dp" in
  destruct (parsargs_spec _ t p lam k Ht Hp)
    as (t' & p' & ext & E & Vt & Vp & Lt & Lp & Dp);
  rewrite decide_False in E by (rewrite Hlen; simpl; lia);
  rewrite (bind_ok _ _ _ _ _ E).

(** ** The curves of the closed-form models *)

Lemma bg_exp_curve (hp : heap) (t p : pyval) (lam kappa : R) :
  valid hp t -> valid hp p -> contents hp p = [kappa] ->
  (bg_exp [t; p; VFloat lam] hp).1 =
    Ok (RCurve (Ar (map (fun x => exp (- lam * kappa * Rabs x))
                        (contents hp t)))).
Proof.
  intros Ht Hp Hc. unfold bg_exp.
  after_parsargs t p (VFloat lam) 1%nat Ht Hp Hc.
  run_body. repeat (progress (rewrite ?Vp, ?Hc, ?Vt; simpl)). by np_simp.
Qed.

Lemma bg_hom3d_curve (hp : heap) (t p : pyval) (lam c : R) :
  valid hp t -> valid hp p -> contents hp p = [c] ->
  (bg_hom3d [t; p; VFloat lam] hp).1 =
    Ok (RCurve (Ar (map
      (fun x => exp (-8 * PI ^ 2 / 9 / sqrt 3 * lam * (c * 1e-6 * 1e3 * NA)
                     * ((mu0 / 4 / PI) * (muB * ge) ^ 2 / (h / 2 / PI))
                     * Rabs (x * 1e-6)))
      (contents hp t)))).
Proof.
  intros Ht Hp Hc. unfold bg_hom3d.
  after_parsargs t p (VFloat lam) 1%nat Ht Hp Hc.
  run_body. repeat (progress (rewrite ?Vp, ?Hc, ?Vt; simpl)). by np_simp.
Qed.

Lemma bg_strexp_curve (hp : heap) (t p : pyval) (lam kappa d : R) :
  valid hp t -> valid hp p -> contents hp p = [kappa; d] ->
  (bg_strexp [t; p; VFloat lam] hp).1 =
    Ok (RCurve (Ar (map
      (fun x => exp (- lam * kappa * np_power (Rabs x) d))
      (contents hp t)))).
Proof.
  intros Ht Hp Hc. unfold bg_strexp.
  after_parsargs t p (VFloat lam) 2%nat Ht Hp Hc.
  run_body. repeat (progress (rewrite ?Vp, ?Hc, ?Vt; simpl)). by np_simp.
Qed.

Lemma bg_prodstrexp_curve (hp : heap) (t p : pyval)
    (lam kappa1 d1 kappa2 d2 : R) :
  valid hp t -> valid hp p -> contents hp p = [kappa1; d1; kappa2; d2] ->
  (bg_prodstrexp [t; p; VFloat lam] hp).1 =
    Ok (RCurve (Ar (map
      (fun x => exp (- lam * kappa1 * np_power (Rabs x) d1)
                * exp (- lam * kappa2 * np_power (Rabs x) d2))
      (contents hp t)))).
Proof.
  intros Ht Hp Hc. unfold bg_prodstrexp.
  after_parsargs t p (VFloat lam) 4%nat Ht Hp Hc.
  run_body. repeat (progress (rewrite ?Vp, ?Hc, ?Vt; simpl)). by np_simp.
Qed.

Lemma bg_sumstrexp_curve (hp : heap) (t p : pyval)
    (lam kappa1 d1 w1 kappa2 d2 : R) :
  valid hp t -> valid hp p -> contents hp p = [kappa1; d1; w1; kappa2; d2] ->
  (bg_sumstrexp [t; p; VFloat lam] hp).1 =
    Ok (RCurve (Ar (map
      (fun x => w1 * exp (- lam * kappa1 * np_power (Rabs x) d1)
                + (1 - w1) * exp (- lam * kappa2 * np_power (Rabs x) d2))
      (contents hp t)))).
Proof.
  intros Ht Hp Hc. unfold bg_sumstrexp.
  after_parsargs t p (VFloat lam) 5%nat Ht Hp Hc.
  run_body. repeat (progress (rewrite ?Vp, ?Hc, ?Vt; simpl)). by np_simp.
Qed.

(** ** The polynomial models *)

Lemma view_flip (hp : heap) (a : ndarray) :
  view hp (MkNd (buf a) (negb (flipped a)) (dtype a)) = rev (view hp a).
Proof.
  unfold view. simpl. destruct (flipped a); simpl; by rewrite ?rev_involutive.
Qed.

Lemma view_alloc_as (hp : heap) (xs : list R) (dt : np_dtype) :
  view (hp ++ [xs]) (MkNd (length hp) false dt) = xs.
Proof.
  unfold view. simpl. by rewrite list_lookup_middle.
Qed.

Lemma insert_alloc (hp : heap) (xs ys : list R) :
  <[length hp := ys]> (hp ++ [xs]) = hp ++ [ys].
Proof.
  rewrite insert_app_r_alt by lia. by rewrite Nat.sub_diag.
Qed.

Lemma length_cast (dt : np_dtype) (xs : list R) :
  length (cast dt xs) = length xs.
Proof. unfold cast. by rewrite length_map. Qed.

(** The shared body, run on a heap [hp]: the scaled copy is the one buffer
    it allocates and the only one it writes. *)
Lemma poly_body_run (hp : heap) (t param : ndarray) (lam : R) :
  (buf t < length hp)%nat ->
  poly_body t param (VFloat lam) hp =
    (match np_polyval (scaled (dtype param) lam (view hp param))
             (Ok (Ar (map Rabs (view hp t)))) with
     | Ok B => Ok (RCurve B)
     | Raise e => Raise e
     end,
     hp ++ [scaled (dtype param) lam (view hp param)]).
Proof.
  intros Lt. unfold poly_body, np_flip, np_copy, getitem_init, setitem_init.
  unfold val, arr, bind, ret, read, lift, alloc_as, store. simpl.
  rewrite view_alloc_as, view_flip. np_simp.
  rewrite decide_True
    by (rewrite length_map, length_take, !length_rev; lia).
  rewrite insert_alloc, view_alloc_as, view_app by done.
  unfold scaled, np_abs. rewrite un_ar, !length_rev.
  by destruct (np_polyval _ _).
Qed.

(** The curves of the polynomial models for a parameter vector of either
    dtype: the coefficients other than the intercept go through [conv]. *)
Lemma bg_poly1_curve_any (hp : heap) (t p : pyval) (lam a0 a1 : R) :
  valid hp t -> valid hp p -> contents hp p = [a0; a1] ->
  (bg_poly1 [t; p; VFloat lam] hp).1 =
    Ok (RCurve (Ar (map
      (fun x => (0 * Rabs x + conv (dtype_of p) (lam * a1)) * Rabs x + a0)
      (contents hp t)))).
Proof.
  intros Ht Hp Hc. unfold bg_poly1.
  after_parsargs t p (VFloat lam) 2%nat Ht Hp Hc.
  rewrite poly_body_run by done. rewrite Vp, Hc, Vt, Dp.
  unfold scaled, cast, np_polyval. simpl. by np_simp.
Qed.

Lemma bg_poly2_curve_any (hp : heap) (t p : pyval) (lam a0 a1 a2 : R) :
  valid hp t -> valid hp p -> contents hp p = [a0; a1; a2] ->
  (bg_poly2 [t; p; VFloat lam] hp).1 =
    Ok (RCurve (Ar (map
      (fun x => ((0 * Rabs x + conv (dtype_of p) (lam * a2)) * Rabs x
                 + conv (dtype_of p) (lam * a1)) * Rabs x + a0)
      (contents hp t)))).
Proof.
  intros Ht Hp Hc. unfold bg_poly2.
  after_parsargs t p (VFloat lam) 3%nat Ht Hp Hc.
  rewrite poly_body_run by done. rewrite Vp, Hc, Vt, Dp.
  unfold scaled, cast, np_polyval. simpl. by np_simp.
Qed.

Lemma bg_poly3_curve_any (hp : heap) (t p : pyval) (lam a0 a1 a2 a3 : R) :
  valid hp t -> valid hp p -> contents hp p = [a0; a1; a2; a3] ->
  (bg_poly3 [t; p; VFloat lam] hp).1 =
    Ok (RCurve (Ar (map
      (fun x => (((0 * Rabs x + conv (dtype_of p) (lam * a3)) * Rabs x
                  + conv (dtype_of p) (lam * a2)) * Rabs x
                 + conv (dtype_of p) (lam * a1)) * Rabs x + a0)
      (contents hp t)))).
Proof.
  intros Ht Hp Hc. unfold bg_poly3.
  after_parsargs t p (VFloat lam) 4%nat Ht Hp Hc.
  rewrite poly_body_run by done. rewrite Vp, Hc, Vt, Dp.
  unfold scaled, cast, np_polyval. simpl. by np_simp.
Qed.

(** For a float parameter vector nothing is lost in the store. *)
Lemma bg_poly1_curve (hp : heap) (t p : pyval) (lam a0 a1 : R) :
  valid hp t -> valid hp p -> is_float p -> contents hp p = [a0; a1] ->
  (bg_poly1 [t; p; VFloat lam] hp).1 =
    Ok (RCurve (Ar (map (fun x => (0 * Rabs x + lam * a1) * Rabs x + a0)
                        (contents hp t)))).
Proof.
  intros Ht Hp Hfl Hc. rewrite (bg_poly1_curve_any _ _ _ _ a0 a1) by done.
  by rewrite Hfl.
Qed.

Lemma bg_poly2_curve (hp : heap) (t p : pyval) (lam a0 a1 a2 : R) :
  valid hp t -> valid hp p -> is_float p -> contents hp p = [a0; a1; a2] ->
  (bg_poly2 [t; p; VFloat lam] hp).1 =
    Ok (RCurve (Ar (map
      (fun x => ((0 * Rabs x + lam * a2) * Rabs x + lam * a1) * Rabs x + a0)
      (contents hp t)))).
Proof.
  intros Ht Hp Hfl Hc. rewrite (bg_poly2_curve_any _ _ _ _ a0 a1 a2) by done.
  by rewrite Hfl.
Qed.

Lemma bg_poly3_curve (hp : heap) (t p : pyval) (lam a0 a1 a2 a3 : R) :
  valid hp t -> valid hp p -> is_float p ->
  contents hp p = [a0; a1; a2; a3] ->
  (bg_poly3 [t; p; VFloat lam] hp).1 =
    Ok (RCurve (Ar (map
      (fun x => (((0 * Rabs x + lam * a3) * Rabs x + lam * a2) * Rabs x
                 + lam * a1) * Rabs x + a0)
      (contents hp t)))).
Proof.
  intros Ht Hp Hfl Hc.
  rewrite (bg_poly3_curve_any _ _ _ _ a0 a1 a2 a3) by done. by rewrite Hfl.
Qed.

(** Truncation leaves an integer as it is. *)
Lemma trunc_IZR (z : Z) : trunc (IZR z) = IZR z.
Proof.
  unfold trunc. destruct (Rle_dec 0 (IZR z)) as [Hle|Hlt].
  - f_equal. symmetry. apply Int_part_spec. lra.
  - replace (- IZR z) with (IZR (- z)) by apply opp_IZR.
    rewrite <- (Int_part_spec (IZR (- z)) (- z)%Z) by lra.
    rewrite opp_IZR. lra.
Qed.

Lemma conv_0 (dt : np_dtype) : conv dt 0 = 0.
Proof. destruct dt; [done|]. apply (trunc_IZR 0). Qed.

(** Truncation of a number strictly between -1 and 1. *)
Lemma trunc_small (x : R) : -1 < x < 1 -> trunc x = 0.
Proof.
  intros Hx. unfold trunc. destruct (Rle_dec 0 x) as [Hle|Hlt].
  - by rewrite <- (Int_part_spec x 0) by lra.
  - rewrite <- (Int_part_spec (- x) 0) by lra. lra.
Qed.

(** ** The excluded-volume model *)

Lemma bg_hom3dex_run (hp : heap) (t p : pyval) (lam c R_ : R) :
  valid hp t -> valid hp p -> contents hp p = [c; R_] ->
  (bg_hom3dex [t; p; VFloat lam] hp).1 =
    match hom3dex_alpha A_hom3dex R_ (Ar (contents hp t))
            load_exvolume_redfactor.1 load_exvolume_redfactor.2 with
    | Raise e => Raise e
    | Ok alpha =>
        match np_exp (- #lam * #(c * 1e-6 * 1e3 * NA)
                      * (#(8 * PI ^ 2 / 9 / sqrt 3) * #A_hom3dex
                         * np_abs (Ok (Ar (contents hp t)) * #1e-6)
                         * Ok alpha))%np with
        | Ok B => Ok (RCurve B)
        | Raise e => Raise e
        end
    end.
Proof.
  intros Ht Hp Hc. unfold bg_hom3dex.
  after_parsargs t p (VFloat lam) 2%nat Ht Hp Hc.
  destruct load_exvolume_redfactor as [dR_tab alphas_tab].
  run_body. repeat (progress (rewrite ?Vp, ?Hc, ?Vt; simpl)).
  fold A_hom3dex. destruct (hom3dex_alpha _ _ _ _ _); [|done].
  simpl. by destruct (un exp _).
Qed.

Lemma hom3dex_alpha_zero (A : R) (t : tval) (dR_tab alphas_tab : list R) :
  hom3dex_alpha A 0 t dR_tab alphas_tab = Ok (Sc 1).
Proof.
  unfold hom3dex_alpha. by destruct (Req_dec_T 0 0).
Qed.

Lemma hom3dex_alpha_table (A R_ mx : R) (ts dR_tab alphas_tab : list R) :
  R_ <> 0 -> py_max dR_tab = Ok mx ->
  hom3dex_alpha A R_ (Ar ts) dR_tab alphas_tab =
    Ok (Ar (map
      (fun x => let dR := A * Rabs (x * 1e-6) / (R_ * 1e-9) ^ 3 in
                if Rlt_dec dR mx
                then np_interp dR dR_tab alphas_tab
                else 1 - (3 / 2 / PI) * sqrt 3 / dR)
      ts)).
Proof.
  intros HR Hmx. unfold hom3dex_alpha, np_abs.
  destruct (Req_dec_T R_ 0); [done|]. rewrite Hmx. by np_simp.
Qed.

(** ** The fractal model *)

Lemma bg_homfractal_run (hp : heap) (t p : pyval) (lam c d : R) :
  valid hp t -> valid hp p -> contents hp p = [c; d] ->
  (bg_homfractal [t; p; VFloat lam] hp).1 =
    match pow10 (dtype_of p) (- d) with
    | Raise e => Raise e
    | Ok ten_d =>
        let cL :=
          if Req_dec_T d 3 then (- PI / 2, LamNumber (4 / 3 / sqrt 3))
          else (cos (d * PI / 6) * gamma (- d / 3),
                LamTuple
                  (quad (fun z => np_power (Rabs (1 - 3 * z ^ 2)) (d / 3))
                        0 1 1000)) in
        match np_exp (times_Lam (4 * PI / 3 * cL.1) cL.2 * #lam
                      * #(c * 1e-6 * ten_d * NA)
                      * #(np_power D_dipolar (d / 3))
                      * np_abs (Ok (Ar (contents hp t)) * #1e-6)
                        ** #(d / 3))%np
        with
        | Ok B => Ok (RCurve B)
        | Raise e => Raise e
        end
    end.
Proof.
  intros Ht Hp Hc. unfold bg_homfractal.
  after_parsargs t p (VFloat lam) 2%nat Ht Hp Hc.
  run_body. repeat (progress (rewrite ?Vp, ?Hc, ?Vt; simpl)).
  rewrite Dp. destruct (pow10 _ _) as [ten_d|e]; [|done]. simpl.
  unfold D_dipolar.
  destruct (Req_dec_T d 3); simpl; rewrite ?Vt; try done;
    by destruct (un exp _).
Qed.

(** At [d = 3], for a float parameter vector, the constants are closed
    forms and the curve has one value per sample. *)
Lemma bg_homfractal_curve_3 (hp : heap) (t p : pyval) (lam c : R) :
  valid hp t -> valid hp p -> is_float p -> contents hp p = [c; 3] ->
  (bg_homfractal [t; p; VFloat lam] hp).1 =
    Ok (RCurve (Ar (map
      (fun x => exp (4 * PI / 3 * (- PI / 2) * (4 / 3 / sqrt 3) * lam
                     * (c * 1e-6 * np_power 10 (- 3) * NA)
                     * np_power D_dipolar (3 / 3)
                     * np_power (Rabs (x * 1e-6)) (3 / 3)))
      (contents hp t)))).
Proof.
  intros Ht Hp Hfl Hc. rewrite (bg_homfractal_run _ _ _ _ c 3) by done.
  rewrite Hfl. simpl.
  destruct (Req_dec_T 3 3); [|done]. unfold np_exp, np_abs. simpl. by np_simp.
Qed.

(** For any other [d] the product [4*pi/3*c*Lam] is a NumPy scalar times
    the tuple [quad] returns, which raises: the call returns no curve,
    whatever the time axis. *)
Lemma bg_homfractal_general_raises (hp : heap) (t p : pyval) (lam c d : R) :
  valid hp t -> valid hp p -> contents hp p = [c; d] ->
  d <> 3 -> is_float p \/ d <= 0 ->
  (bg_homfractal [t; p; VFloat lam] hp).1 =
    Raise (TypeError
      "can't multiply sequence by non-int of type 'numpy.float64'").
Proof.
  intros Ht Hp Hc Hd Hdt. rewrite (bg_homfractal_run _ _ _ _ c d) by done.
  assert (exists ten_d, pow10 (dtype_of p) (- d) = Ok ten_d) as [ten_d ->].
  { unfold pow10. destruct Hdt as [-> | Hle]; [by eexists|].
    destruct (dtype_of p); [by eexists|].
    destruct (Rlt_dec (- d) 0); [lra | by eexists]. }
  simpl. by destruct (Req_dec_T d 3).
Qed.

(** An integer parameter vector with [d > 0] does not get as far: the
    conversion of the concentration, [10**-d], raises. *)
Lemma bg_homfractal_int_raises (hp : heap) (t p : pyval) (lam c d : R) :
  valid hp t -> valid hp p -> contents hp p = [c; d] ->
  dtype_of p = Int64 -> 0 < d ->
  (bg_homfractal [t; p; VFloat lam] hp).1 =
    Raise (ValueError
      [MStr "Integers to negative integer powers are not allowed."]).
Proof.
  intros Ht Hp Hc Hint Hd. rewrite (bg_homfractal_run _ _ _ _ c d) by done.
  rewrite Hint. unfold pow10. by destruct (Rlt_dec (- d) 0); [|lra].
Qed.

(** ** Calls only add buffers to the heap *)

Lemma grows_ret {A} (a : A) : grows (ret a).
Proof. intros hp. exists []. by rewrite app_nil_r. Qed.

Lemma grows_raise {A} (e : exn) : grows (@raise A e).
Proof. intros hp. exists []. by rewrite app_nil_r. Qed.

Lemma grows_lift {A} (o : outcome A) : grows (lift o).
Proof. intros hp. exists []. by rewrite app_nil_r. Qed.

Lemma grows_read (a : ndarray) : grows (read a).
Proof. intros hp. exists []. by rewrite app_nil_r. Qed.

Lemma grows_alloc (xs : list R) : grows (alloc xs).
Proof. intros hp. by exists [xs]. Qed.

Lemma grows_bind {A B} (c : M A) (k : A -> M B) :
  grows c -> (forall a, grows (k a)) -> grows (bind c k).
Proof.
  intros Hc Hk hp. unfold bind. destruct (Hc hp) as [ext1 E1].
  destruct (c hp) as [[a|e] h1]; simpl in E1; subst h1.
  - destruct (Hk a (hp ++ ext1)) as [ext2 E2]. exists (ext1 ++ ext2).
    by rewrite E2, app_assoc.
  - by exists ext1.
Qed.

Create HintDb grows.
#[local] Hint Resolve grows_ret grows_raise grows_lift grows_read grows_alloc
  : grows.

Ltac grows_step :=
  match goal with
  | |- grows (bind _ _) => apply grows_bind; [|intros]
  | |- grows (match ?x with _ => _ end) => destruct x
  | |- grows _ => solve [auto with grows]
  end.

Lemma grows_atleast_1d (v : pyval) : grows (np_atleast_1d v).
Proof. unfold np_atleast_1d. repeat grows_step. Qed.

Lemma grows_len (a : ndarray) : grows (len a).
Proof. unfold len. repeat grows_step. Qed.

Lemma grows_getitem (a : ndarray) (i : nat) : grows (getitem a i).
Proof. unfold getitem. repeat grows_step. Qed.

Lemma grows_arr (a : ndarray) : grows (arr a).
Proof. unfold arr. repeat grows_step. Qed.

Lemma grows_val (v : pyval) : grows (val v).
Proof. unfold val. destruct v; auto using grows_arr with grows. Qed.

#[local] Hint Resolve grows_atleast_1d grows_len grows_getitem grows_arr
  grows_val : grows.

Lemma grows_parsargs (args : list pyval) (k : nat) : grows (_parsargs args k).
Proof. unfold _parsargs. repeat grows_step. Qed.

(** The polynomial body stores into the copy it has just allocated, never
    into a buffer that existed before. *)
Lemma grows_poly_body (t param : ndarray) (lam : pyval) :
  grows (poly_body t param lam).
Proof.
  intros hp. unfold poly_body, np_flip, np_copy, getitem_init, setitem_init.
  destruct lam as [x|a]; unfold val, arr, bind, ret, read, lift, alloc, store;
    simpl; rewrite ?view_alloc;
    repeat case_match; simplify_eq; simpl; rewrite ?insert_alloc; eauto.
Qed.

#[local] Hint Resolve grows_parsargs grows_poly_body : grows.

Lemma grows_call (m : model) (args : list pyval) : grows (call m args).
Proof.
  destruct m; simpl;
    unfold bg_exp, bg_hom3d, bg_hom3dex, bg_homfractal, bg_strexp,
      bg_prodstrexp, bg_sumstrexp, bg_poly1, bg_poly2, bg_poly3;
    repeat grows_step.
Qed.

Lemma contents_app (hp ext : heap) (v : pyval) :
  valid hp v -> contents (hp ++ ext) v = contents hp v.
Proof.
  destruct v as [x|a]; simpl; [done|]. apply view_app.
Qed.

Lemma parsargs_mismatch (hp : heap) (t p lam : pyval) (k : nat) :
  valid hp t -> valid hp p -> length (contents hp p) <> k ->
  exists ext,
    _parsargs [t; p; lam] k hp =
      (Raise (count_mismatch k (length (contents hp p))), hp ++ ext).
Proof.
  intros Ht Hp Hk.
  destruct (parsargs_spec hp t p lam k Ht Hp) as (t' & p' & ext & E & _).
  rewrite decide_True in E by done. by exists ext.
Qed.

Lemma sqrt3_neq_0 : sqrt 3 <> 0.
Proof. apply Rgt_not_eq, sqrt_lt_R0. lra. Qed.

Lemma np_power_0_l (y : R) : y <> 0 -> np_power 0 y = 0.
Proof.
  intros Hy. unfold np_power. destruct (Req_dec_T y 0); [done|].
  by destruct (Req_dec_T 0 0).
Qed.

Lemma np_power_0_r (x : R) : np_power x 0 = 1.
Proof. unfold np_power. by destruct (Req_dec_T 0 0). Qed.

Lemma lookup_map_Some {A B} (f : A -> B) (l : list A) (i : nat) (x : A) :
  l !! i = Some x -> map f l !! i = Some (f x).
Proof.
  revert i. induction l as [|a l IH]; intros [|i] E; simpl in *;
    try discriminate; [by inversion E | by apply IH].
Qed.

Lemma exp_of_0 (x : R) : x = 0 -> exp x = 1.
Proof. intros ->. apply exp_0. Qed.

(** Splits a list that is pointwise related to a list of known length. *)
Ltac split_bounds :=
  repeat match goal with
  | H : Forall2 _ (_ :: _) _ |- _ =>
      apply Forall2_cons_inv_l in H as (? & ? & ? & H & ->)
  | H : Forall2 _ [] _ |- _ => apply Forall2_nil_inv_l in H as ->
  | H : Forall2 _ (_ :: _) (_ :: _) |- _ =>
      apply Forall2_cons in H as [? H]
  end.

(** * The properties the specification states *)

(** C1 (the code at an input where it departs from the claim): on the axis
    [0.5, 1, 1.5] with the float parameters [c = 50, d = 2] and [lam = 1]
    the call to [bg_homfractal] does not return a curve.  [Lam] is bound to
    the pair [quad] returns, and the product [4*pi/3*c*Lam] of a NumPy
    scalar and a tuple raises [TypeError]; the same happens for every
    [d <> 3] and every time axis ([bg_homfractal_general_raises]). *)
Theorem bg_homfractal_three_samples :
  (bg_homfractal [axis; params; VFloat 1] [[0.5; 1; 1.5]; [50; 2]]).1
  = Raise (TypeError
      "can't multiply sequence by non-int of type 'numpy.float64'").
Proof.
  rewrite (bg_homfractal_general_raises _ _ _ 1 50 2);
    unfold contents, valid, is_float, axis, params, view; simpl;
    try reflexivity; try lia; try lra.
  by left.
Qed.

(** C3: for every model, a call with two or three arguments whose parameter
    vector does not have [npar] entries raises the [ValueError] of
    [_parsargs], whose arguments carry the expected count and the count
    received.  The error comes out of the resolver, the first step of the
    call: nothing has been computed and the heap has at most gained the
    arrays made from scalar arguments. *)
Theorem call_wrong_param_count (m : model) (hp : heap) (t p lam : pyval)
    (args : list pyval) :
  args = [t; p] \/ args = [t; p; lam] ->
  valid hp t -> valid hp p ->
  length (contents hp p) <> npar m ->
  exists ext,
    call m args hp =
      (Raise (ValueError [MStr "This model requires "; MInt (npar m);
                          MStr " parameters. Only ";
                          MInt (length (contents hp p));
                          MStr " where specified."]),
       hp ++ ext).
Proof.
  intros Hargs Ht Hp Hk.
  assert (exists lam' ext,
            _parsargs args (npar m) hp =
              (Raise (count_mismatch (npar m) (length (contents hp p))),
               hp ++ ext) /\ (args = [t; p] \/ args = [t; p; lam']))
    as (lam' & ext & E & Hargs').
  { destruct Hargs as [-> | ->].
    - destruct (parsargs_mismatch hp t p (VFloat 1) _ Ht Hp Hk) as [ext E].
      exists (VFloat 1), ext. split; [exact E | by left].
    - destruct (parsargs_mismatch hp t p lam _ Ht Hp Hk) as [ext E].
      exists lam, ext. split; [exact E | by right]. }
  exists ext. clear Hargs.
  destruct m; simpl in *;
    unfold bg_exp, bg_hom3d, bg_hom3dex, bg_homfractal, bg_strexp,
      bg_prodstrexp, bg_sumstrexp, bg_poly1, bg_poly2, bg_poly3;
    destruct Hargs' as [-> | ->]; by rewrite (bind_raise _ _ _ _ _ E).
Qed.

(** C4: with the second parameter of [bg_hom3dex] equal to 0 the reduction
    factor is the number 1, whatever the axis and the table, and the curve
    is [exp(-lam * c' * (8 pi^2 / (9 sqrt 3)) * A * |t * 1e-6|)]: neither
    the table nor the interpolation nor a division by the second parameter
    takes part in it. *)
Theorem bg_hom3dex_zero_exclusion (hp : heap) (t p : pyval) (lam c : R) :
  valid hp t -> valid hp p -> contents hp p = [c; 0] ->
  (forall ts, hom3dex_alpha A_hom3dex 0 (Ar ts)
                load_exvolume_redfactor.1 load_exvolume_redfactor.2
              = Ok (Sc 1)) /\
  (bg_hom3dex [t; p; VFloat lam] hp).1 =
    Ok (RCurve (Ar (map
      (fun x => exp (- lam * (c * 1e-6 * 1e3 * NA)
                     * (8 * PI ^ 2 / (9 * sqrt 3)) * A_hom3dex
                     * Rabs (x * 1e-6)))
      (contents hp t)))).
Proof.
  intros Ht Hp Hc. split; [intros ts; apply hom3dex_alpha_zero|].
  rewrite (bg_hom3dex_run _ _ _ _ c 0) by done.
  rewrite hom3dex_alpha_zero. unfold np_exp, np_abs. np_simp.
  do 3 f_equal. apply map_ext. intros x. f_equal.
  field. apply sqrt3_neq_0.
Qed.

(** C5 (the code at an input where it departs from the claim): with the
    integer parameter vector [1, -1] of the claim's scenario and
    [lam = 0.5], [bg_poly1] on the axis [0, 2] returns [1, 1], not
    [1 + 0.5 * (-1) * |t|], which is [1, 0]: the copy of the parameters is
    an integer array, and the store [p[:-1] = lam*p[:-1]] truncates -0.5
    to 0.  With [lam = 1] the same call returns the [1, -1] of the
    scenario. *)
Theorem bg_poly1_integer_parameters :
  (bg_poly1 [axis; VNd (IntArray 1 false); VFloat 0.5] [[0; 2]; [1; -1]]).1
    = Ok (RCurve (Ar [1; 1])) /\
  (bg_poly1 [axis; VNd (IntArray 1 false); VFloat 1] [[0; 2]; [1; -1]]).1
    = Ok (RCurve (Ar [1; -1])).
Proof.
  split.
  - rewrite (bg_poly1_curve_any _ _ _ _ 1 (-1));
      [|simpl; lia|simpl; lia|reflexivity].
    unfold contents, axis, view. simpl.
    rewrite (trunc_small (0.5 * -1)) by lra.
    do 4 f_equal; [|f_equal]; ring.
  - rewrite (bg_poly1_curve_any _ _ _ _ 1 (-1));
      [|simpl; lia|simpl; lia|reflexivity].
    unfold contents, axis, view. simpl.
    replace (1 * -1) with (IZR (-1)) by lra. rewrite trunc_IZR.
    do 4 f_equal.
    + rewrite Rabs_R0. lra.
    + f_equal. rewrite Rabs_right by lra. lra.
Qed.

(** X22: for a float parameter vector [bg_poly1(t, [a0, a1], lam)] is
    [a0 + lam * a1 * |t|] sample by sample: the intercept is not scaled,
    the first-order coefficient is scaled by [lam]. *)
Theorem bg_poly1_affine (hp : heap) (t p : pyval) (lam a0 a1 : R) :
  valid hp t -> valid hp p -> is_float p -> contents hp p = [a0; a1] ->
  (bg_poly1 [t; p; VFloat lam] hp).1 =
    Ok (RCurve (Ar (map (fun x => a0 + lam * a1 * Rabs x) (contents hp t)))).
Proof.
  intros Ht Hp Hfl Hc. rewrite (bg_poly1_curve _ _ _ _ a0 a1) by done.
  do 3 f_equal. apply map_ext. intros x. ring.
Qed.

(** C6: for every model, a call with a number of positional arguments other
    than 0 (the descriptor), 2 or 3 raises the [TypeError] of [_parsargs];
    nothing else happens. *)
Theorem call_wrong_arity (m : model) (args : list pyval) (hp : heap) :
  length args <> 0%nat -> length args <> 2%nat -> length args <> 3%nat ->
  call m args hp =
    (Raise (TypeError
       "Two or three input arguments required: bg_model(t,p) or bg_model(r,p,lam)"),
     hp).
Proof.
  intros H0 H2 H3.
  destruct args as [|a [|b [|c [|d rest]]]]; simpl in *; try lia;
    by destruct m.
Qed.

(** C7: for every model, the call without arguments returns the descriptor
    record; its five fields have [npar] entries each, the count the model
    hands to [_parsargs].  The heap is not touched and no library function
    takes part. *)
Theorem call_descriptor (m : model) (hp : heap) :
  exists i : info,
    call m [] hp = (Ok (RInfo i), hp) /\
    length (Parameters i) = npar m /\
    length (Units i) = npar m /\
    length (Start i) = npar m /\
    length (Lower i) = npar m /\
    length (Upper i) = npar m.
Proof.
  destruct m; simpl; eexists; (split; [reflexivity|]); by repeat split.
Qed.

(** C8: [bg_exp(t, [kappa], 1)] is [exp(-kappa * |t|)] sample by sample,
    and a call without the third argument is the call with [lam = 1]. *)
Theorem bg_exp_unit_depth (hp : heap) (t p : pyval) (kappa : R) :
  valid hp t -> valid hp p -> contents hp p = [kappa] -> 0 <= kappa ->
  (bg_exp [t; p; VFloat 1] hp).1 =
    Ok (RCurve (Ar (map (fun x => exp (- kappa * Rabs x)) (contents hp t))))
  /\ bg_exp [t; p] hp = bg_exp [t; p; VFloat 1] hp.
Proof.
  intros Ht Hp Hc _. split; [|reflexivity].
  rewrite (bg_exp_curve _ _ _ _ kappa) by done.
  do 3 f_equal. apply map_ext. intros x. f_equal. ring.
Qed.

(** C9: for every model and every call, whatever it returns or raises,
    every array the caller holds (the time axis and the parameter vector
    among them) has the contents it had before the call.  The polynomial
    models write only into the copy they allocate. *)
Theorem call_leaves_inputs (m : model) (args : list pyval) (hp : heap)
    (v : pyval) :
  valid hp v -> contents (call m args hp).2 v = contents hp v.
Proof.
  intros Hv. destruct (grows_call m args hp) as [ext ->].
  by apply contents_app.
Qed.


(** C2, as the code has it: within the bounds of the descriptor and for
    every [lam], the value at a sample [t = 0] is 1 for the exponential,
    the homogeneous and the excluded-volume model, for the fractal model at
    [d = 3] with a float parameter vector and for the stretched-exponential
    models whose stretch factors are not 0; for the polynomial models it is
    the intercept. *)
Theorem call_zero_time (m : model) (hp : heap) (t p : pyval) (lam : R) :
  valid hp t -> valid hp p ->
  in_bounds m (contents hp p) ->
  regular_at_zero m (contents hp p) ->
  (m = Homfractal -> is_float p) ->
  exists B : list R,
    (call m [t; p; VFloat lam] hp).1 = Ok (RCurve (Ar B)) /\
    length B = length (contents hp t) /\
    forall i, contents hp t !! i = Some 0 ->
              B !! i = Some (zero_time_value m (contents hp p)).
Proof.
  intros Ht Hp [HL HU] Hreg Hfl.
  remember (contents hp p) as ps eqn:Hc. symmetry in Hc.
  destruct m; unfold descriptor in HL, HU; simpl in HL, HU; split_bounds;
    simpl in Hreg; unfold zero_time_value, call; simpl nth.
  - eexists. split; [by eapply bg_exp_curve|].
    split; [by rewrite length_map|]. intros i Hi.
    rewrite (lookup_map_Some _ _ _ _ Hi). f_equal. apply exp_of_0.
    rewrite Rabs_R0. ring.
  - eexists. split; [by eapply bg_hom3d_curve|].
    split; [by rewrite length_map|]. intros i Hi.
    rewrite (lookup_map_Some _ _ _ _ Hi). f_equal. apply exp_of_0.
    rewrite Rmult_0_l, Rabs_R0. ring.
  - destruct Hreg as (mx & Hmx & _).
    match goal with H : 0.01 <= ?r |- _ => assert (r <> 0) as HR by lra end.
    eexists. split.
    { erewrite bg_hom3dex_run by done.
      erewrite hom3dex_alpha_table by done.
      unfold np_exp, np_abs. np_simp. reflexivity. }
    split; [by rewrite length_map|]. intros i Hi.
    rewrite (lookup_map_Some _ _ _ _ Hi). f_equal. apply exp_of_0.
    rewrite !Rmult_0_l, Rabs_R0. ring.
  - subst. eexists.
    split; [eapply bg_homfractal_curve_3; [done|done|by apply Hfl|done]|].
    split; [by rewrite length_map|]. intros i Hi.
    rewrite (lookup_map_Some _ _ _ _ Hi). f_equal. apply exp_of_0.
    rewrite Rmult_0_l, Rabs_R0, (np_power_0_l (3 / 3)) by lra. ring.
  - eexists. split; [by eapply bg_strexp_curve|].
    split; [by rewrite length_map|]. intros i Hi.
    rewrite (lookup_map_Some _ _ _ _ Hi). f_equal. apply exp_of_0.
    rewrite Rabs_R0, np_power_0_l by done. ring.
  - destruct Hreg as [Hd1 Hd2].
    eexists. split; [by eapply bg_prodstrexp_curve|].
    split; [by rewrite length_map|]. intros i Hi.
    rewrite (lookup_map_Some _ _ _ _ Hi). f_equal.
    rewrite Rabs_R0, !np_power_0_l by done.
    rewrite !Rmult_0_r, exp_0. ring.
  - destruct Hreg as [Hd1 Hd2].
    eexists. split; [by eapply bg_sumstrexp_curve|].
    split; [by rewrite length_map|]. intros i Hi.
    rewrite (lookup_map_Some _ _ _ _ Hi). f_equal.
    rewrite Rabs_R0, !np_power_0_l by done.
    rewrite !Rmult_0_r, exp_0. ring.
  - eexists. split; [by eapply bg_poly1_curve_any|].
    split; [by rewrite length_map|]. intros i Hi.
    rewrite (lookup_map_Some _ _ _ _ Hi). f_equal.
    rewrite Rabs_R0. ring.
  - eexists. split; [by eapply bg_poly2_curve_any|].
    split; [by rewrite length_map|]. intros i Hi.
    rewrite (lookup_map_Some _ _ _ _ Hi). f_equal.
    rewrite Rabs_R0. ring.
  - eexists. split; [by eapply bg_poly3_curve_any|].
    split; [by rewrite length_map|]. intros i Hi.
    rewrite (lookup_map_Some _ _ _ _ Hi). f_equal.
    rewrite Rabs_R0. ring.
Qed.

(** * Further properties of the models *)

(** ** Auxiliary facts *)

Lemma A_hom3dex_D_dipolar : A_hom3dex = D_dipolar.
Proof. unfold A_hom3dex, D_dipolar. by rewrite (Rmult_comm ge muB). Qed.

Lemma D_dipolar_pos : 0 < D_dipolar.
Proof.
  unfold D_dipolar. pose proof PI_RGT_0 as HPI.
  assert (0 < mu0) by (unfold mu0; lra).
  assert (0 < muB) by (unfold muB; lra).
  assert (0 < ge) by (unfold ge; lra).
  assert (0 < h) by (unfold h; lra).
  apply Rdiv_lt_0_compat; [apply Rmult_lt_0_compat|].
  - do 2 (apply Rdiv_lt_0_compat; [|lra]). done.
  - apply pow_lt. by apply Rmult_lt_0_compat.
  - apply Rdiv_lt_0_compat; [|done]. apply Rdiv_lt_0_compat; [done|lra].
Qed.

Lemma np_power_1 (x : R) : 0 <= x -> np_power x 1 = x.
Proof.
  intros Hx. unfold np_power. destruct (Req_dec_T 1 0); [lra|].
  destruct (Req_dec_T x 0); [done|]. apply Rpower_1. lra.
Qed.




Lemma lookup_map_inv {A B} (f : A -> B) (l : list A) (i : nat) (b : B) :
  map f l !! i = Some b -> exists a, l !! i = Some a /\ b = f a.
Proof.
  revert i. induction l as [|a l IH]; intros [|i] E; simpl in *;
    try discriminate.
  - inversion E. by exists a.
  - by apply IH.
Qed.

Lemma map_ext_Forall {A B} (f g : A -> B) (l : list A) :
  Forall (fun x => f x = g x) l -> map f l = map g l.
Proof. induction 1 as [|x l Hx _ IH]; simpl; by rewrite ?Hx, ?IH. Qed.

Lemma call_mismatch (m : model) (hp : heap) (t p lam : pyval) :
  valid hp t -> valid hp p -> length (contents hp p) <> npar m ->
  (call m [t; p; lam] hp).1 =
    Raise (count_mismatch (npar m) (length (contents hp p))).
Proof.
  intros Ht Hp Hk.
  destruct (parsargs_mismatch hp t p lam _ Ht Hp Hk) as [ext E].
  destruct m; simpl in *;
    unfold bg_exp, bg_hom3d, bg_hom3dex, bg_homfractal, bg_strexp,
      bg_prodstrexp, bg_sumstrexp, bg_poly1, bg_poly2, bg_poly3;
    by rewrite (bind_raise _ _ _ _ _ E).
Qed.

(** ** The argument resolver on a well-formed call *)

(** X1: with two or three arguments and a parameter vector of the required
    length, [_parsargs] returns the arguments as arrays showing the same
    numbers: an array argument is returned as the same object, a scalar as
    a new array of length 1, and the third result is the given [lam], or 1
    when there are two arguments. *)
Theorem parsargs_resolves (hp : heap) (t p lam : pyval) (k : nat)
    (args : list pyval) :
  (args = [t; p] /\ lam = VFloat 1) \/ args = [t; p; lam] ->
  valid hp t -> valid hp p -> length (contents hp p) = k ->
  exists t' p' ext,
    _parsargs args k hp = (Ok (t', p', lam), hp ++ ext) /\
    view (hp ++ ext) t' = contents hp t /\
    view (hp ++ ext) p' = contents hp p /\
    (forall a, t = VNd a -> t' = a) /\
    (forall a, p = VNd a -> p' = a) /\
    length ext = ((if t is VFloat _ then 1 else 0)
                  + (if p is VFloat _ then 1 else 0))%nat.
Proof.
  intros Hargs Ht Hp Hk.
  assert (_parsargs args k = _parsargs [t; p; lam] k) as ->.
  { by destruct Hargs as [[-> ->] | ->]. }
  clear Hargs. destruct t as [x|ta], p as [y|pa]; simpl in Ht, Hp, Hk.
  - exists (NdArray (length hp) false), (NdArray (length (hp ++ [[x]])) false),
      [[x]; [y]].
    replace (hp ++ [[x]; [y]]) with ((hp ++ [[x]]) ++ [[y]])
      by (by rewrite <- app_assoc).
    repeat split; try done.
    + unfold _parsargs, bind, ret, np_atleast_1d, alloc, len, read, raise.
      simpl. rewrite view_alloc. by rewrite decide_False by (simpl; lia).
    + rewrite view_app by (rewrite length_app; simpl; lia).
      apply view_alloc.
    + apply view_alloc.
  - exists (NdArray (length hp) false), pa, [[x]].
    repeat split; try done.
    + unfold _parsargs, bind, ret, np_atleast_1d, alloc, len, read, raise.
      simpl. rewrite view_app by done. by rewrite decide_False by lia.
    + apply view_alloc.
    + by apply view_app.
    + by intros a [= ->].
  - exists ta, (NdArray (length hp) false), [[y]].
    repeat split; try done.
    + unfold _parsargs, bind, ret, np_atleast_1d, alloc, len, read, raise.
      simpl. rewrite view_alloc. by rewrite decide_False by (simpl; lia).
    + by apply view_app.
    + apply view_alloc.
    + by intros a [= ->].
  - exists ta, pa, []. rewrite app_nil_r.
    repeat split; try done.
    + unfold _parsargs, bind, ret, np_atleast_1d, len, read, raise.
      simpl. by rewrite decide_False by lia.
    + by intros a [= ->].
    + by intros a [= ->].
Qed.

(** ** How the closed-form models relate *)

(** X2: a stretched exponential with stretch factor 1 is the exponential
    model with the same decay rate. *)
Theorem bg_strexp_unit_stretch (hp : heap) (t p pe : pyval) (lam kappa : R) :
  valid hp t -> valid hp p -> valid hp pe ->
  contents hp p = [kappa; 1] -> contents hp pe = [kappa] ->
  (bg_strexp [t; p; VFloat lam] hp).1 = (bg_exp [t; pe; VFloat lam] hp).1.
Proof.
  intros Ht Hp Hpe Hc Hce.
  rewrite (bg_strexp_curve _ _ _ _ kappa 1), (bg_exp_curve _ _ _ _ kappa)
    by done.
  do 3 f_equal. apply map_ext. intros x.
  by rewrite np_power_1 by apply Rabs_pos.
Qed.






(** ** The polynomials of order 2 and 3 *)

(** X8: for a float parameter vector [bg_poly2(t, [a0, a1, a2], lam)] is
    [a0 + lam * a1 * |t| + lam * a2 * |t|^2] sample by sample. *)
Theorem bg_poly2_quadratic (hp : heap) (t p : pyval) (lam a0 a1 a2 : R) :
  valid hp t -> valid hp p -> is_float p ->
  contents hp p = [a0; a1; a2] ->
  (bg_poly2 [t; p; VFloat lam] hp).1 =
    Ok (RCurve (Ar (map
      (fun x => a0 + lam * a1 * Rabs x + lam * a2 * Rabs x ^ 2)
      (contents hp t)))).
Proof.
  intros Ht Hp Hfl Hc. rewrite (bg_poly2_curve _ _ _ _ a0 a1 a2) by done.
  do 3 f_equal. apply map_ext. intros x. ring.
Qed.

(** X9: for a float parameter vector [bg_poly3(t, [a0, a1, a2, a3], lam)]
    is [a0 + lam * a1 * |t| + lam * a2 * |t|^2 + lam * a3 * |t|^3] sample
    by sample. *)
Theorem bg_poly3_cubic (hp : heap) (t p : pyval) (lam a0 a1 a2 a3 : R) :
  valid hp t -> valid hp p -> is_float p ->
  contents hp p = [a0; a1; a2; a3] ->
  (bg_poly3 [t; p; VFloat lam] hp).1 =
    Ok (RCurve (Ar (map
      (fun x => a0 + lam * a1 * Rabs x + lam * a2 * Rabs x ^ 2
                + lam * a3 * Rabs x ^ 3)
      (contents hp t)))).
Proof.
  intros Ht Hp Hfl Hc. rewrite (bg_poly3_curve _ _ _ _ a0 a1 a2 a3) by done.
  do 3 f_equal. apply map_ext. intros x. ring.
Qed.

(** ** The homogeneous models *)




(** X11: the excluded-volume model with exclusion distance 0 is the
    homogeneous model of the same concentration. *)
Theorem bg_hom3dex_zero_is_hom3d (hp : heap) (t p q : pyval) (lam c : R) :
  valid hp t -> valid hp p -> valid hp q ->
  contents hp p = [c; 0] -> contents hp q = [c] ->
  (bg_hom3dex [t; p; VFloat lam] hp).1 = (bg_hom3d [t; q; VFloat lam] hp).1.
Proof.
  intros Ht Hp Hq Hc Hcq.
  rewrite (bg_hom3dex_run _ _ _ _ c 0), (bg_hom3d_curve _ _ _ _ c) by done.
  rewrite hom3dex_alpha_zero, A_hom3dex_D_dipolar. fold D_dipolar.
  unfold np_exp, np_abs. np_simp.
  do 3 f_equal. apply map_ext. intros x. f_equal.
  field. apply sqrt3_neq_0.
Qed.

Lemma np_power_10_minus_3 : np_power 10 (- 3) = 1e-3.
Proof.
  unfold np_power. destruct (Req_dec_T (- 3) 0); [lra|].
  destruct (Req_dec_T 10 0); [lra|].
  replace (-3) with (- INR 3) by (simpl; lra).
  rewrite Rpower_Ropp, Rpower_pow by lra. simpl. lra.
Qed.

(** X12: at [d = 3], for a float parameter vector, the fractal model is
    the homogeneous model evaluated at a concentration smaller by the
    factor 1e-6: [bg_homfractal] converts the concentration with [10**-d],
    that is 1e-3 at [d = 3], where [bg_hom3d] uses 1e3. *)
Theorem bg_homfractal_3_is_hom3d_scaled (hp : heap) (t p q : pyval)
    (lam c : R) :
  valid hp t -> valid hp p -> valid hp q -> is_float p ->
  contents hp p = [c; 3] -> contents hp q = [c * 1e-6] ->
  (bg_homfractal [t; p; VFloat lam] hp).1
  = (bg_hom3d [t; q; VFloat lam] hp).1.
Proof.
  intros Ht Hp Hq Hfl Hc Hcq.
  rewrite (bg_homfractal_curve_3 _ _ _ _ c), (bg_hom3d_curve _ _ _ _ (c * 1e-6))
    by done.
  fold D_dipolar. do 3 f_equal. apply map_ext. intros x.
  replace (3 / 3) with 1 by lra.
  rewrite np_power_10_minus_3, !np_power_1
    by (try apply Rabs_pos; left; apply D_dipolar_pos).
  f_equal. field. apply sqrt3_neq_0.
Qed.

(** ** The excluded-volume model away from zero *)

(** X13: at samples whose [dR] is at or beyond the largest tabulated value,
    the excluded-volume curve does not depend on the table or on the
    interpolation: it is the homogeneous curve multiplied by
    [exp(lam * c' * (4 pi / 3) * (R * 1e-9)^3)], the sphere of radius [R]
    being excluded. *)
Theorem bg_hom3dex_beyond_table (hp : heap) (t p : pyval) (lam c R_ mx : R) :
  valid hp t -> valid hp p -> contents hp p = [c; R_] ->
  R_ <> 0 ->
  py_max load_exvolume_redfactor.1 = Ok mx -> 0 < mx ->
  Forall (fun x => mx <= A_hom3dex * Rabs (x * 1e-6) / (R_ * 1e-9) ^ 3)
         (contents hp t) ->
  (bg_hom3dex [t; p; VFloat lam] hp).1 =
    Ok (RCurve (Ar (map
      (fun x => exp (- lam * (c * 1e-6 * 1e3 * NA)
                     * (8 * PI ^ 2 / (9 * sqrt 3) * A_hom3dex
                        * Rabs (x * 1e-6)
                        - 4 * PI / 3 * (R_ * 1e-9) ^ 3)))
      (contents hp t)))).
Proof.
  intros Ht Hp Hc HR Hmx Hpos Hbig.
  rewrite (bg_hom3dex_run _ _ _ _ c R_) by done.
  erewrite hom3dex_alpha_table by done.
  unfold np_exp, np_abs. np_simp. do 3 f_equal.
  apply map_ext_Forall. eapply Forall_impl; [exact Hbig|].
  intros x Hx. simpl in Hx |- *.
  destruct (Rlt_dec _ mx) as [Hlt|_]; [lra|].
  assert (A_hom3dex * Rabs (x * 1e-6) <> 0) as Hu.
  { intros E. rewrite E in Hx. unfold Rdiv in Hx.
    rewrite Rmult_0_l in Hx. lra. }
  f_equal. field. repeat split; auto using PI_neq0, sqrt3_neq_0.
  - intros E. apply Hu. rewrite E. ring.
  - intros E. apply Hu. rewrite E. ring.
Qed.

(** X14: with an empty table and an exclusion distance other than 0 the
    call raises the [ValueError] of [max] on an empty sequence. *)
Theorem bg_hom3dex_empty_table (hp : heap) (t p : pyval) (lam c R_ : R) :
  valid hp t -> valid hp p -> contents hp p = [c; R_] ->
  R_ <> 0 -> load_exvolume_redfactor.1 = [] ->
  (bg_hom3dex [t; p; VFloat lam] hp).1 =
    Raise (ValueError [MStr "max() arg is an empty sequence"]).
Proof.
  intros Ht Hp Hc HR Htab.
  rewrite (bg_hom3dex_run _ _ _ _ c R_) by done.
  unfold hom3dex_alpha. destruct (Req_dec_T R_ 0); [done|].
  by rewrite Htab.
Qed.

(** ** Properties shared by all the models *)

(** Splits on whether the parameter vector [p] has the length the model
    [m] requires and, when it has, names its entries. *)
Ltac by_model m hp p Hc :=
  let Hlen := fresh "Hlen" in
  let ps := fresh "ps" in
  destruct (decide (length (contents hp p) = npar m)) as [Hlen|Hlen];
  [ remember (contents hp p) as ps eqn:Hc; symmetry in Hc;
    destruct m; simpl in Hlen;
    destruct ps as [|? [|? [|? [|? [|? [|? ?]]]]]]; simpl in Hlen;
    try discriminate Hlen; clear Hlen; unfold call
  | ].



(** X15: for a scalar [lam] and float arguments, what a call returns or
    raises depends only on the numbers the arguments hold, not on the heap
    or on how they are passed: a scalar parameter (as in
    [bg_hom3d(t, conc, lam)] of the example script) is the parameter vector
    of length 1, and a view is as good as a copy. *)
Theorem call_depends_on_contents (m : model) (hp1 hp2 : heap)
    (t1 p1 t2 p2 : pyval) (lam : R) :
  valid hp1 t1 -> valid hp1 p1 -> valid hp2 t2 -> valid hp2 p2 ->
  is_float t1 -> is_float p1 -> is_float t2 -> is_float p2 ->
  contents hp1 t1 = contents hp2 t2 ->
  contents hp1 p1 = contents hp2 p2 ->
  (call m [t1; p1; VFloat lam] hp1).1 = (call m [t2; p2; VFloat lam] hp2).1.
Proof.
  intros Ht1 Hp1 Ht2 Hp2 _ Fp1 _ Fp2 Et Ep.
  by_model m hp1 p1 Hc.
  - rewrite (bg_exp_curve hp1 _ _ _ r), (bg_exp_curve hp2 _ _ _ r)
      by (done || congruence); by rewrite Et.
  - rewrite (bg_hom3d_curve hp1 _ _ _ r), (bg_hom3d_curve hp2 _ _ _ r)
      by (done || congruence); by rewrite Et.
  - rewrite (bg_hom3dex_run hp1 _ _ _ r r0), (bg_hom3dex_run hp2 _ _ _ r r0)
      by (done || congruence); by rewrite Et.
  - rewrite (bg_homfractal_run hp1 _ _ _ r r0),
      (bg_homfractal_run hp2 _ _ _ r r0)
      by (done || congruence); by rewrite Et, Fp1, Fp2.
  - rewrite (bg_strexp_curve hp1 _ _ _ r r0),
      (bg_strexp_curve hp2 _ _ _ r r0)
      by (done || congruence); by rewrite Et.
  - rewrite (bg_prodstrexp_curve hp1 _ _ _ r r0 r1 r2),
      (bg_prodstrexp_curve hp2 _ _ _ r r0 r1 r2)
      by (done || congruence); by rewrite Et.
  - rewrite (bg_sumstrexp_curve hp1 _ _ _ r r0 r1 r2 r3),
      (bg_sumstrexp_curve hp2 _ _ _ r r0 r1 r2 r3)
      by (done || congruence); by rewrite Et.
  - rewrite (bg_poly1_curve hp1 _ _ _ r r0), (bg_poly1_curve hp2 _ _ _ r r0)
      by (done || congruence); by rewrite Et.
  - rewrite (bg_poly2_curve hp1 _ _ _ r r0 r1),
      (bg_poly2_curve hp2 _ _ _ r r0 r1)
      by (done || congruence); by rewrite Et.
  - rewrite (bg_poly3_curve hp1 _ _ _ r r0 r1 r2),
      (bg_poly3_curve hp2 _ _ _ r r0 r1 r2)
      by (done || congruence); by rewrite Et.
  - rewrite !call_mismatch by congruence. by rewrite Ep.
Qed.


(** X17: with modulation depth 0 and parameters within the bounds of the
    descriptor (a float parameter vector for the fractal model) no model
    decays: the exponential,
    homogeneous, excluded-volume and stretched-exponential models and the
    fractal model at [d = 3] return 1 at every sample, the polynomial
    models their intercept. *)
Theorem call_zero_depth (m : model) (hp : heap) (t p : pyval) :
  valid hp t -> valid hp p ->
  in_bounds m (contents hp p) ->
  evaluates m (contents hp p) ->
  (m = Homfractal -> is_float p) ->
  (call m [t; p; VFloat 0] hp).1 =
    Ok (RCurve (Ar (map (fun _ => zero_time_value m (contents hp p))
                        (contents hp t)))).
Proof.
  intros Ht Hp [HL _] Hev Hfl.
  assert (length (contents hp p) = npar m) as Hn.
  { apply Forall2_length in HL. rewrite <- HL. by destruct m. }
  clear HL.
  by_model m hp p Hc; [..|done]; simpl in Hev; unfold zero_time_value;
    simpl nth.
  - rewrite (bg_exp_curve hp _ _ _ r) by done.
    do 3 f_equal. apply map_ext. intros x. apply exp_of_0. ring.
  - rewrite (bg_hom3d_curve hp _ _ _ r) by done.
    do 3 f_equal. apply map_ext. intros x. apply exp_of_0. ring.
  - rewrite (bg_hom3dex_run hp _ _ _ r r0) by done.
    destruct (Req_dec_T r0 0) as [-> | HR].
    + rewrite hom3dex_alpha_zero. unfold np_exp, np_abs. np_simp.
      do 3 f_equal. apply map_ext. intros x. apply exp_of_0. ring.
    + destruct Hev as [?|(mx & Hmx & _)]; [done|].
      erewrite hom3dex_alpha_table by done.
      unfold np_exp, np_abs. np_simp.
      do 3 f_equal. apply map_ext. intros x. apply exp_of_0. ring.
  - subst. rewrite (bg_homfractal_curve_3 hp _ _ _ r) by auto.
    do 3 f_equal. apply map_ext. intros x. apply exp_of_0. ring.
  - rewrite (bg_strexp_curve hp _ _ _ r r0) by done.
    do 3 f_equal. apply map_ext. intros x. apply exp_of_0. ring.
  - rewrite (bg_prodstrexp_curve hp _ _ _ r r0 r1 r2) by done.
    do 3 f_equal. apply map_ext. intros x.
    rewrite <- exp_plus. apply exp_of_0. ring.
  - rewrite (bg_sumstrexp_curve hp _ _ _ r r0 r1 r2 r3) by done.
    do 3 f_equal. apply map_ext. intros x.
    rewrite !Ropp_0, !Rmult_0_l, exp_0. ring.
  - rewrite (bg_poly1_curve_any hp _ _ _ r r0) by done.
    do 3 f_equal. apply map_ext. intros x.
    rewrite !Rmult_0_l, !conv_0. ring.
  - rewrite (bg_poly2_curve_any hp _ _ _ r r0 r1) by done.
    do 3 f_equal. apply map_ext. intros x.
    rewrite !Rmult_0_l, !conv_0. ring.
  - rewrite (bg_poly3_curve_any hp _ _ _ r r0 r1 r2) by done.
    do 3 f_equal. apply map_ext. intros x.
    rewrite !Rmult_0_l, !conv_0. ring.
Qed.

(** X18: for a scalar [lam] and a float parameter vector on which the
    model evaluates, the curve is computed sample by sample: there is a function of one
    time such that, on every axis, the call returns its value at each
    sample.  So the curve has one value per sample, in the order of the
    axis, and no value depends on the other samples. *)
Theorem call_sample_by_sample (m : model) (lam : R) (ps : list R) :
  length ps = npar m -> evaluates m ps ->
  exists f : R -> R,
    forall (hp : heap) (t p : pyval),
      valid hp t -> valid hp p -> is_float p -> contents hp p = ps ->
      (call m [t; p; VFloat lam] hp).1
      = Ok (RCurve (Ar (map f (contents hp t)))).
Proof.
  intros Hn Hev.
  destruct m; simpl in Hn, Hev;
    destruct ps as [|? [|? [|? [|? [|? [|? ?]]]]]]; simpl in Hn, Hev;
    try discriminate Hn; clear Hn; unfold call.
  - eexists. intros hp t p Ht Hp Hfl Hc. by apply bg_exp_curve.
  - eexists. intros hp t p Ht Hp Hfl Hc. by apply bg_hom3d_curve.
  - destruct (Req_dec_T r0 0) as [-> | HR].
    + eexists. intros hp t p Ht Hp Hfl Hc.
      rewrite (bg_hom3dex_run hp _ _ _ r 0) by done.
      rewrite hom3dex_alpha_zero. unfold np_exp, np_abs. np_simp.
      reflexivity.
    + destruct Hev as [?|(mx & Hmx & _)]; [done|].
      eexists. intros hp t p Ht Hp Hfl Hc.
      rewrite (bg_hom3dex_run hp _ _ _ r r0) by done.
      erewrite hom3dex_alpha_table by done.
      unfold np_exp, np_abs. np_simp. reflexivity.
  - subst. eexists. intros hp t p Ht Hp Hfl Hc. by apply bg_homfractal_curve_3.
  - eexists. intros hp t p Ht Hp Hfl Hc. by apply bg_strexp_curve.
  - eexists. intros hp t p Ht Hp Hfl Hc. by apply bg_prodstrexp_curve.
  - eexists. intros hp t p Ht Hp Hfl Hc. by apply bg_sumstrexp_curve.
  - eexists. intros hp t p Ht Hp Hfl Hc. by apply bg_poly1_curve.
  - eexists. intros hp t p Ht Hp Hfl Hc. by apply bg_poly2_curve.
  - eexists. intros hp t p Ht Hp Hfl Hc. by apply bg_poly3_curve.
Qed.

(** ** The descriptors *)

Lemma eps_small : 0 < eps <= 1.
Proof.
  unfold eps. assert (1 <= 2 ^ 52) as H by (apply pow_R1_Rle; lra).
  split; [apply Rinv_0_lt_compat; lra|].
  rewrite <- Rinv_1. apply Rinv_le_contravar; lra.
Qed.

(** X19: in the descriptor of every model each lower bound is at most the
    upper bound, and each start value lies between the two. *)
Theorem descriptor_start_in_bounds (m : model) :
  in_bounds m (Start (descriptor m)) /\
  Forall2 Rle (Lower (descriptor m)) (Upper (descriptor m)).
Proof.
  pose proof eps_small as Heps.
  destruct m; unfold in_bounds, descriptor; simpl;
    repeat split; repeat constructor; lra.
Qed.

(** ** More on the sums and on an array of depths *)


Lemma zip_with_map_both {A B} (f : R -> R -> R) (g : A -> R) (k : B -> R)
    (xs : list A) (ys : list B) :
  zip_with f (map g xs) (map k ys) = zip_with (fun a b => f (g a) (k b)) xs ys.
Proof.
  revert ys. induction xs as [|a xs IH]; intros [|b ys]; simpl;
    by rewrite ?IH.
Qed.

(** X21: when [lam] is an array, [bg_exp] combines it with the axis by
    broadcasting: with as many depths as samples, sample [i] decays with
    depth [i]; with a different number of depths, neither of the two
    lengths being 1, the call raises the broadcasting [ValueError]. *)
Theorem bg_exp_depth_array (hp : heap) (t p : pyval) (lam : ndarray)
    (kappa : R) :
  valid hp t -> valid hp p -> (buf lam < length hp)%nat ->
  contents hp p = [kappa] ->
  (length (view hp lam) = length (contents hp t) ->
   (bg_exp [t; p; VNd lam] hp).1 =
     Ok (RCurve (Ar (zip_with (fun l x => exp (- l * kappa * Rabs x))
                              (view hp lam) (contents hp t))))) /\
  (length (view hp lam) <> length (contents hp t) ->
   length (view hp lam) <> 1%nat -> length (contents hp t) <> 1%nat ->
   (bg_exp [t; p; VNd lam] hp).1 =
     Raise (broadcast_error (length (view hp lam))
                            (length (contents hp t)))).
Proof.
  intros Ht Hp Hl Hc.
  assert ((bg_exp [t; p; VNd lam] hp).1 =
          match np_exp (- Ok (Ar (view hp lam)) * #kappa
                        * np_abs (Ok (Ar (contents hp t))))%np with
          | Ok B => Ok (RCurve B)
          | Raise e => Raise e
          end) as ->.
  { unfold bg_exp. after_parsargs t p (VNd lam) 1%nat Ht Hp Hc.
    run_body. rewrite Vp, Hc. simpl. rewrite Vt, view_app by done.
    by destruct (un exp _). }
  unfold np_exp, np_abs. rewrite !un_ar, bin_ar_sc, !map_map. split.
  - intros Hlen. unfold bin.
    rewrite decide_True by (by rewrite !length_map).
    rewrite un_ar, zip_with_map_both. do 3 f_equal.
    clear. generalize (contents hp t).
    induction (view hp lam) as [|l ls IH]; intros [|x xs]; simpl;
      by rewrite ?IH.
  - intros Hne H1 Hn1. unfold bin.
    rewrite decide_False by (by rewrite !length_map).
    destruct (view hp lam) as [|l1 [|l2 ls]], (contents hp t) as [|x1 [|x2 xs]];
      simpl in *; try done; by rewrite !length_map.
Qed.

End External.

(** * The theorems at concrete calls *)

(** C2, the claim as stated fails: [bg_poly1] at [t = 0] with the
    parameters [2, -1], which lie within the bounds of its descriptor,
    gives 2. *)
Lemma bg_poly1_zero_time_is_intercept :
  (exists i : info,
     bg_poly1 [] [] = (Ok (RInfo i), []) /\
     Forall2 Rle (Lower i) [2; -1] /\ Forall2 Rle [2; -1] (Upper i)) /\
  (bg_poly1 [axis; params; VFloat 1] [[0]; [2; -1]]).1
    = Ok (RCurve (Ar [2])) /\
  2 <> 1.
Proof.
  split; [|split; [|lra]].
  - eexists. split; [reflexivity|].
    split; repeat constructor; simpl; lra.
  - rewrite (bg_poly1_curve _ _ _ _ 2 (-1)) by (simpl; (lia || reflexivity)).
    unfold contents, axis, view. simpl. do 4 f_equal.
    rewrite Rabs_R0. ring.
Qed.

(** The stretched exponential with stretch factor 0, the lower bound of
    its descriptor: at [t = 0] the value is [exp(-lam * kappa)]. *)
Lemma bg_strexp_zero_stretch :
  (bg_strexp [axis; params; VFloat 1] [[0]; [1; 0]]).1
    = Ok (RCurve (Ar [exp (-1)])) /\
  exp (-1) <> 1.
Proof.
  split.
  - rewrite (bg_strexp_curve _ _ _ _ 1 0) by (simpl; (lia || reflexivity)).
    unfold contents, axis, view. simpl. do 4 f_equal.
    rewrite np_power_0_r. f_equal. ring.
  - apply Rlt_not_eq. rewrite <- exp_0. apply exp_increasing. lra.
Qed.

Lemma call_zero_time_witness :
  exists B : list R,
    (call sample_gamma sample_quad sample_interp sample_table Hom3dex [axis; params; VFloat 1] [[0; 1]; [50; 1]]).1
      = Ok (RCurve (Ar B)) /\
    length B = 2%nat /\
    forall i, [0; 1] !! i = Some 0 -> B !! i = Some 1.
Proof.
  apply (call_zero_time sample_gamma sample_quad sample_interp sample_table
           Hom3dex [[0; 1]; [50; 1]] axis params 1).
  - simpl. lia.
  - simpl. lia.
  - split; repeat constructor; simpl; lra.
  - exists (Rmax 1 2). split; [reflexivity|].
    apply Rlt_le_trans with 1; [lra | apply Rmax_l].
  - discriminate.
Defined.

Lemma call_wrong_param_count_witness :
  exists ext,
    call sample_gamma sample_quad sample_interp sample_table Exp [axis; params; VFloat 1] [[0; 1]; [1; 2]] =
      (Raise (ValueError [MStr "This model requires "; MInt 1;
                          MStr " parameters. Only "; MInt 2;
                          MStr " where specified."]),
       [[0; 1]; [1; 2]] ++ ext).
Proof.
  apply (call_wrong_param_count sample_gamma sample_quad sample_interp
           sample_table Exp [[0; 1]; [1; 2]] axis params (VFloat 1)).
  - by right.
  - simpl. lia.
  - simpl. lia.
  - simpl. lia.
Defined.

Lemma bg_hom3dex_zero_exclusion_witness :
  (forall ts, hom3dex_alpha sample_interp A_hom3dex 0 (Ar ts) [1; 2] [1; 1]
              = Ok (Sc 1)) /\
  (bg_hom3dex sample_interp sample_table [axis; params; VFloat 1]
     [[0; 1]; [50; 0]]).1 =
    Ok (RCurve (Ar (map
      (fun x => exp (- 1 * (50 * 1e-6 * 1e3 * NA)
                     * (8 * PI ^ 2 / (9 * sqrt 3)) * A_hom3dex
                     * Rabs (x * 1e-6)))
      [0; 1]))).
Proof.
  apply (bg_hom3dex_zero_exclusion sample_interp sample_table
           [[0; 1]; [50; 0]] axis params 1 50).
  - simpl. lia.
  - simpl. lia.
  - reflexivity.
Defined.

(** The scenario of the specification with a float parameter vector:
    [bg_poly1] on the axis [0, 2] with parameters [1.0, -1.0] and
    [lam = 1] returns [1, -1]. *)
Lemma bg_poly1_affine_witness :
  (bg_poly1 [axis; params; VFloat 1] [[0; 2]; [1; -1]]).1
    = Ok (RCurve (Ar [1; -1])).
Proof.
  rewrite (bg_poly1_affine [[0; 2]; [1; -1]] axis params 1 1 (-1)).
  - unfold contents, axis, view. simpl. do 4 f_equal.
    + rewrite Rabs_R0. ring.
    + f_equal. rewrite Rabs_right by lra. ring.
  - simpl. lia.
  - simpl. lia.
  - reflexivity.
  - reflexivity.
Defined.

(** The scenario of the specification: [bg_exp] on the axis [0, 1, 2] with
    the parameter [0.5] and no third argument returns
    [1, exp(-0.5), exp(-1)]. *)
Lemma bg_exp_unit_depth_witness :
  (bg_exp [axis; params] [[0; 1; 2]; [0.5]]).1
    = Ok (RCurve (Ar [1; exp (- 0.5); exp (- 1)])).
Proof.
  destruct (bg_exp_unit_depth [[0; 1; 2]; [0.5]] axis params 0.5) as [E1 E2].
  - simpl. lia.
  - simpl. lia.
  - reflexivity.
  - lra.
  - rewrite E2, E1. unfold contents, axis, view. simpl. do 4 f_equal.
    + rewrite Rabs_R0, Rmult_0_r. apply exp_0.
    + f_equal.
      * f_equal. rewrite Rabs_R1. lra.
      * f_equal. f_equal. rewrite Rabs_right by lra. lra.
Defined.

(** After [bg_poly1] has scaled its coefficients by [lam = 2], the
    caller's parameter vector still holds [1, -1]. *)
Lemma call_leaves_inputs_witness :
  contents (call sample_gamma sample_quad sample_interp sample_table Poly1 [axis; params; VFloat 2] [[0; 2]; [1; -1]]).2
    params = [1; -1].
Proof.
  rewrite (call_leaves_inputs sample_gamma sample_quad sample_interp
             sample_table Poly1 [axis; params; VFloat 2] [[0; 2]; [1; -1]]
             params).
  - reflexivity.
  - simpl. lia.
Defined.


(** A call with one argument and a call with four. *)
Lemma call_wrong_arity_witness :
  call sample_gamma sample_quad sample_interp sample_table Strexp [axis] [[0; 1]] =
    (Raise (TypeError
       "Two or three input arguments required: bg_model(t,p) or bg_model(r,p,lam)"),
     [[0; 1]]) /\
  call sample_gamma sample_quad sample_interp sample_table Poly3 [axis; params; VFloat 1; VFloat 1] [[0; 1]; [1; 2; 3; 4]] =
    (Raise (TypeError
       "Two or three input arguments required: bg_model(t,p) or bg_model(r,p,lam)"),
     [[0; 1]; [1; 2; 3; 4]]).
Proof.
  split.
  - apply (call_wrong_arity sample_gamma sample_quad sample_interp
             sample_table Strexp [axis] [[0; 1]]); simpl; lia.
  - apply (call_wrong_arity sample_gamma sample_quad sample_interp
             sample_table Poly3 [axis; params; VFloat 1; VFloat 1]
             [[0; 1]; [1; 2; 3; 4]]); simpl; lia.
Defined.

(** * The further properties at concrete calls *)

(** The resolver on [bg_hom3d(t, 180)], a scalar concentration as in the
    example script. *)
Lemma parsargs_resolves_witness :
  exists t' p' ext,
    _parsargs [axis; VFloat 180] 1 [[0; 1]]
      = (Ok (t', p', VFloat 1), [[0; 1]] ++ ext) /\
    view ([[0; 1]] ++ ext) t' = [0; 1] /\
    view ([[0; 1]] ++ ext) p' = [180] /\
    (forall a, axis = VNd a -> t' = a) /\
    (forall a, VFloat 180 = VNd a -> p' = a) /\
    length ext = 1%nat.
Proof.
  apply (parsargs_resolves [[0; 1]] axis (VFloat 180) (VFloat 1) 1
           [axis; VFloat 180]).
  - by left.
  - simpl. lia.
  - exact I.
  - reflexivity.
Defined.

Lemma bg_strexp_unit_stretch_witness :
  (bg_strexp [axis; params; VFloat 2] [[0; 1]; [0.5; 1]; [0.5]]).1
  = (bg_exp [axis; VNd (NdArray 2 false); VFloat 2]
       [[0; 1]; [0.5; 1]; [0.5]]).1.
Proof.
  apply (bg_strexp_unit_stretch [[0; 1]; [0.5; 1]; [0.5]] axis params
           (VNd (NdArray 2 false)) 2 0.5); try (simpl; lia); reflexivity.
Defined.






Lemma bg_poly2_quadratic_witness :
  (bg_poly2 [axis; params; VFloat 0.5] [[0; 2]; [1; -1; 3]]).1 =
    Ok (RCurve (Ar (map
      (fun x => 1 + 0.5 * -1 * Rabs x + 0.5 * 3 * Rabs x ^ 2) [0; 2]))).
Proof.
  apply (bg_poly2_quadratic [[0; 2]; [1; -1; 3]] axis params 0.5 1 (-1) 3);
    try (simpl; lia); reflexivity.
Defined.

Lemma bg_poly3_cubic_witness :
  (bg_poly3 [axis; params; VFloat 0.5] [[0; 2]; [1; -1; 3; 4]]).1 =
    Ok (RCurve (Ar (map
      (fun x => 1 + 0.5 * -1 * Rabs x + 0.5 * 3 * Rabs x ^ 2
                + 0.5 * 4 * Rabs x ^ 3) [0; 2]))).
Proof.
  apply (bg_poly3_cubic [[0; 2]; [1; -1; 3; 4]] axis params 0.5 1 (-1) 3 4);
    try (simpl; lia); reflexivity.
Defined.


Lemma bg_hom3dex_zero_is_hom3d_witness :
  (bg_hom3dex sample_interp sample_table [axis; params; VFloat 0.3]
     [[0; 1]; [50; 0]; [50]]).1
  = (bg_hom3d [axis; VNd (NdArray 2 false); VFloat 0.3]
       [[0; 1]; [50; 0]; [50]]).1.
Proof.
  apply (bg_hom3dex_zero_is_hom3d sample_interp sample_table
           [[0; 1]; [50; 0]; [50]] axis params (VNd (NdArray 2 false))
           0.3 50); try (simpl; lia); reflexivity.
Defined.

Lemma bg_homfractal_3_is_hom3d_scaled_witness :
  (bg_homfractal sample_gamma sample_quad [axis; params; VFloat 0.3]
     [[0; 1]; [50; 3]; [50 * 1e-6]]).1
  = (bg_hom3d [axis; VNd (NdArray 2 false); VFloat 0.3]
       [[0; 1]; [50; 3]; [50 * 1e-6]]).1.
Proof.
  apply (bg_homfractal_3_is_hom3d_scaled sample_gamma sample_quad
           [[0; 1]; [50; 3]; [50 * 1e-6]] axis params
           (VNd (NdArray 2 false)) 0.3 50); try (simpl; lia); reflexivity.
Defined.

(** The dipolar constant without [pi], which cancels. *)
Lemma A_hom3dex_value : A_hom3dex = mu0 * (ge * muB) ^ 2 / (2 * h).
Proof.
  unfold A_hom3dex. field. split; [unfold h; lra | apply PI_neq0].
Qed.

(** One microsecond at an exclusion distance of 1 nm is far beyond a table
    that ends at 2. *)
Lemma bg_hom3dex_beyond_table_witness :
  (bg_hom3dex sample_interp sample_table [axis; params; VFloat 0.3]
     [[1]; [50; 1]]).1 =
    Ok (RCurve (Ar (map
      (fun x => exp (- (0.3) * (50 * 1e-6 * 1e3 * NA)
                     * (8 * PI ^ 2 / (9 * sqrt 3) * A_hom3dex
                        * Rabs (x * 1e-6)
                        - 4 * PI / 3 * (1 * 1e-9) ^ 3)))
      [1]))).
Proof.
  assert (Rmax 1 2 = 2) as Hmax
    by (unfold Rmax; destruct (Rle_dec 1 2); lra).
  apply (bg_hom3dex_beyond_table sample_interp sample_table [[1]; [50; 1]]
           axis params 0.3 50 1 (Rmax 1 2)).
  - simpl. lia.
  - simpl. lia.
  - reflexivity.
  - lra.
  - reflexivity.
  - rewrite Hmax. lra.
  - repeat constructor. rewrite Hmax, A_hom3dex_value.
    unfold contents, axis, view. simpl.
    rewrite Rabs_right by lra. unfold mu0, ge, muB, h. lra.
Defined.

Lemma bg_hom3dex_empty_table_witness :
  (bg_hom3dex sample_interp ([], []) [axis; params; VFloat 0.3]
     [[0; 1]; [50; 1]]).1 =
    Raise (ValueError [MStr "max() arg is an empty sequence"]).
Proof.
  apply (bg_hom3dex_empty_table sample_interp ([], []) [[0; 1]; [50; 1]]
           axis params 0.3 50 1); try (simpl; lia); try reflexivity; lra.
Defined.

(** A scalar concentration and the one-element vector in another heap. *)
Lemma call_depends_on_contents_witness :
  (call sample_gamma sample_quad sample_interp sample_table Hom3d
     [axis; VFloat 180; VFloat 0.3] [[0; 1]]).1
  = (call sample_gamma sample_quad sample_interp sample_table Hom3d
       [params; VNd (NdArray 2 false); VFloat 0.3] [[5]; [0; 1]; [180]]).1.
Proof.
  apply (call_depends_on_contents sample_gamma sample_quad sample_interp
           sample_table Hom3d [[0; 1]] [[5]; [0; 1]; [180]]
           axis (VFloat 180) params (VNd (NdArray 2 false)) 0.3);
    try (simpl; lia); try exact I; reflexivity.
Defined.


Lemma call_zero_depth_witness :
  (call sample_gamma sample_quad sample_interp sample_table Hom3dex
     [axis; params; VFloat 0] [[0; 1]; [50; 1]]).1
  = Ok (RCurve (Ar (map (fun _ => 1) [0; 1]))).
Proof.
  apply (call_zero_depth sample_gamma sample_quad sample_interp sample_table
           Hom3dex [[0; 1]; [50; 1]] axis params).
  - simpl. lia.
  - simpl. lia.
  - split; repeat constructor; simpl; lra.
  - right. exists (Rmax 1 2). split; [reflexivity|].
    apply Rlt_le_trans with 1; [lra | apply Rmax_l].
  - discriminate.
Defined.

Lemma call_sample_by_sample_witness :
  exists f : R -> R,
    forall (hp : list (list R)) (t p : pyval),
      valid hp t -> valid hp p -> is_float p -> contents hp p = [1; -1] ->
      (call sample_gamma sample_quad sample_interp sample_table Poly1
         [t; p; VFloat 0.5] hp).1
      = Ok (RCurve (Ar (map f (contents hp t)))).
Proof.
  apply (call_sample_by_sample sample_gamma sample_quad sample_interp
           sample_table Poly1 0.5 [1; -1]).
  - reflexivity.
  - exact I.
Defined.


(** Two depths for two samples, and three depths for two samples. *)
Lemma bg_exp_depth_array_witness :
  (bg_exp [axis; params; VNd (NdArray 2 false)]
     [[0; 1]; [0.5]; [0.3; 0.4]]).1
    = Ok (RCurve (Ar (zip_with (fun l x => exp (- l * 0.5 * Rabs x))
                               [0.3; 0.4] [0; 1]))) /\
  (bg_exp [axis; params; VNd (NdArray 2 false)]
     [[0; 1]; [0.5]; [0.3; 0.4; 0.5]]).1
    = Raise (broadcast_error 3 2).
Proof.
  split.
  - apply (bg_exp_depth_array [[0; 1]; [0.5]; [0.3; 0.4]] axis params
             (NdArray 2 false) 0.5); try (simpl; lia); reflexivity.
  - apply (bg_exp_depth_array [[0; 1]; [0.5]; [0.3; 0.4; 0.5]] axis params
             (NdArray 2 false) 0.5); try (simpl; lia); try reflexivity;
      unfold contents, axis, view; simpl; lia.
Defined.
